(** * ai-news-agent: collection pipeline and staged deduplication

    A shallow embedding of the acquisition and deduplication core of the
    ai-news-agent package, with the properties its specification states
    about it and further properties that its code shows:

    - [Models]                  src/ai_news_agent/models.py
    - [RateLimiter],
      [ConcurrencyLimiter]      src/ai_news_agent/utils/rate_limiter.py
    - [RSSCollector]            src/ai_news_agent/collectors/rss.py
    - [EmbeddingService]        src/ai_news_agent/deduplication/embeddings.py
    - [DeduplicationService]    src/ai_news_agent/deduplication/service.py
                                (with the queries of storage/repositories.py
                                it issues)
    - [NewsItemRepository],
      [DeduplicationRepository] src/ai_news_agent/storage/repositories.py
                                (the writes that feed those queries)

    Conventions.  Python [float]s that carry time, token counts and running
    averages are rationals ([Q]); embedding coordinates and similarity scores
    are real numbers ([R]), so that norms have their square roots; [int]s are
    [Z]; [str] is [string]; a [dict] with string keys is a [gmap]; a raised
    exception is the [Raise] branch of [result]. *)

From Stdlib Require Import ZArith QArith Qabs Qminmax Reals Psatz.
From Stdlib Require Import String List.
From stdpp Require Import gmap strings list sorting.

Set Default Proof Using "Type".

(** ** Exceptions and fallible computations *)

(** The exceptions the modelled code can meet.  [Unexpected] stands for any
    other subclass of [Exception]. *)
Inductive exn : Type :=
  | KeyError (key : string)
  | IndexError
  | TypeError
  | ValueError
  | ZeroDivisionError
  | TimeoutError
  | ClientError
  | ClientResponseError (status : Z)
  | MultipleResultsFound
  | Unexpected (what : string).

Inductive result (A : Type) : Type :=
  | Ok (a : A)
  | Raise (e : exn).
Arguments Ok {A} a.
Arguments Raise {A} e.

Definition bind {A B} (r : result A) (k : A -> result B) : result B :=
  match r with
  | Ok a => k a
  | Raise e => Raise e
  end.

Notation "x <- r ;;; k" := (bind r (fun x => k))
  (at level 100, r at next level, right associativity, only parsing).

(** [mapM f l]: run [f] on the elements of [l] from left to right and stop
    at the first exception. *)
Fixpoint mapM {A B} (f : A -> result B) (l : list A) : result (list B) :=
  match l with
  | [] => Ok []
  | a :: l' => b <- f a ;;; bs <- mapM f l' ;;; Ok (b :: bs)
  end.

(** ** Dates and times (the [datetime] module) *)

Module Datetime.

(** A [datetime]: the reading of its date and time fields, counted in
    microseconds from the epoch, and its [tzinfo]: [None] for a naive value,
    [Some off] for an aware one whose UTC offset is [off] microseconds. *)
Record datetime : Type := mk_datetime {
  fields : Z;
  tzinfo : option Z
}.

(** A [timedelta], in microseconds. *)
Definition timedelta : Type := Z.

Definition UTC : Z := 0.

Definition days (n : Z) : timedelta := (n * 86400 * 1000000)%Z.
Definition hours (n : Z) : timedelta := (n * 3600 * 1000000)%Z.

(** [dt.replace(tzinfo=UTC)]: the fields are kept, the zone is overwritten. *)
Definition replace_tzinfo (dt : datetime) (tz : Z) : datetime :=
  {| fields := fields dt; tzinfo := Some tz |}.

(** [dt - td]. *)
Definition minus_delta (dt : datetime) (td : timedelta) : datetime :=
  {| fields := (fields dt - td)%Z; tzinfo := tzinfo dt |}.

(** [a - b] on two datetimes: the difference of the fields for two naive
    values, of the instants for two aware ones, and a [TypeError] for a
    naive and an aware one. *)
Definition sub (a b : datetime) : result timedelta :=
  match tzinfo a, tzinfo b with
  | None, None => Ok (fields a - fields b)%Z
  | Some oa, Some ob => Ok ((fields a - oa) - (fields b - ob))%Z
  | _, _ => Raise TypeError
  end.

(** [a > b], with the same rule. *)
Definition gt (a b : datetime) : result bool :=
  match tzinfo a, tzinfo b with
  | None, None => Ok (fields b <? fields a)%Z
  | Some oa, Some ob => Ok (fields b - ob <? fields a - oa)%Z
  | _, _ => Raise TypeError
  end.

(** [td.total_seconds()]. *)
Definition total_seconds (td : timedelta) : Q := td # 1000000.

End Datetime.

(** ** models.py *)

Module Models.
Import Datetime.

(** [NewsItem], with the fields the collector and the deduplication service
    read.  [id] is never empty once the model validator has run. *)
Record NewsItem : Type := mk_NewsItem {
  id : string;
  url : string;
  title : string;
  content : string;
  source : string;
  published_at : datetime
}.

Section GenerateId.
(** [hashlib.sha256(b).hexdigest()]. *)
Variable sha256_hexdigest : string -> string.

(** The [generate_id] validator: an id that was not provided (or is the
    empty string) is derived from the URL and the title. *)
Definition generate_id (given : option string) (u t : string) : string :=
  match given with
  | Some i => if decide (i = EmptyString) then sha256_hexdigest (u ++ t) else i
  | None => sha256_hexdigest (u ++ t)
  end.
End GenerateId.

Record CollectorStats : Type := mk_CollectorStats {
  stats_source : string;
  success_count : Z;
  failure_count : Z;
  last_success : option datetime;
  last_failure : option datetime;
  average_items : Q;
  average_response_time : Q
}.

Definition new_stats (name : string) : CollectorStats :=
  {| stats_source := name; success_count := 0; failure_count := 0;
     last_success := None; last_failure := None;
     average_items := 0; average_response_time := 0 |}.

(** Python's [a / b] on numbers: a zero divisor raises. *)
Definition truediv (a b : Q) : result Q :=
  if Qeq_dec b 0 then Raise ZeroDivisionError else Ok (a / b)%Q.

Definition success_rate (s : CollectorStats) : result Q :=
  let total := (success_count s + failure_count s)%Z in
  if (0 <? total)%Z then truediv (inject_Z (success_count s)) (inject_Z total)
  else Ok 0%Q.

Definition health_status (s : CollectorStats) : result string :=
  r <- success_rate s ;;;
  if Qle_bool (9 # 10) r then Ok "healthy"%string
  else
    r' <- success_rate s ;;;
    if Qle_bool (7 # 10) r' then Ok "degraded"%string
    else Ok "unhealthy"%string.

End Models.

(** ** utils/rate_limiter.py *)

Module RateLimiter.
Import Models.
Local Open Scope Q_scope.

(** The limiter: its three settings and its two [defaultdict]s. *)
Record t : Type := mk_RateLimiter {
  rate : Q;
  burst : Z;
  per_domain : bool;
  buckets : gmap string Q;
  last_update : gmap string Q
}.

Definition init (r : Q) (b : Z) (pd : bool) : t :=
  {| rate := r; burst := b; per_domain := pd;
     buckets := ∅; last_update := ∅ |}.

Definition set_buckets (rl : t) (m : gmap string Q) : t :=
  {| rate := rate rl; burst := burst rl; per_domain := per_domain rl;
     buckets := m; last_update := last_update rl |}.

Definition set_last_update (rl : t) (m : gmap string Q) : t :=
  {| rate := rate rl; burst := burst rl; per_domain := per_domain rl;
     buckets := buckets rl; last_update := m |}.

(** [d[key]] on a [defaultdict]: a missing key is first filled with the
    factory's value. *)
Definition defaultdict_get (d : gmap string Q) (key : string) (factory : Q)
  : Q * gmap string Q :=
  match d !! key with
  | Some v => (v, d)
  | None => (factory, <[key := factory]> d)
  end.

(** How the wall clock moves during one call of [acquire]: the time that
    passes before [now = time.time()], between that reading and the
    evaluation of [self.last_update[bucket_key]] (whose factory is
    [time.time] itself), and the time by which [asyncio.sleep] and the
    second reading overrun the requested delay. *)
Record timing : Type := mk_timing {
  before_now : Q;
  before_lookup : Q;
  sleep_overrun : Q
}.

Definition timing_ok (tm : timing) : Prop :=
  0 <= before_now tm /\ 0 <= before_lookup tm /\ 0 <= sleep_overrun tm.

Section Urlparse.
(** [urlparse(url).netloc]. *)
Variable netloc : string -> string.

Definition _get_bucket_key (rl : t) (url : string) : string :=
  if negb (per_domain rl) then "global"%string
  else
    let n := netloc url in
    if decide (n = EmptyString) then "unknown"%string else n.

(** The refill block of [acquire], which the method runs once on entry
    and once more after a wait. [clock] is the time at which
    [self.last_update[bucket_key]] is evaluated. *)
Definition refill (rl : t) (key : string) (now clock : Q) : t :=
  let '(last, lu) := defaultdict_get (last_update rl) key clock in
  let elapsed := now - last in
  let '(b, bs) := defaultdict_get (buckets rl) key (inject_Z (burst rl)) in
  let bs' := <[key := Qmin (inject_Z (burst rl)) (b + elapsed * rate rl)]> bs in
  set_last_update (set_buckets rl bs') (<[key := now]> lu).

Definition bucket (rl : t) (key : string) : Q :=
  fst (defaultdict_get (buckets rl) key (inject_Z (burst rl))).

(** [self.buckets[bucket_key] -= tokens]. *)
Definition consume (rl : t) (key : string) (tokens : Q) : t :=
  let '(b, bs) := defaultdict_get (buckets rl) key (inject_Z (burst rl)) in
  set_buckets rl (<[key := b - tokens]> bs).

(** [acquire(url, tokens)], started when the clock shows [clock]; the
    result carries the clock at return. [asyncio.sleep(d)] lets at least
    [d] seconds pass and returns at once for [d <= 0]. *)
Definition acquire (rl : t) (clock : Q) (url : string) (tokens : Q)
    (tm : timing) : result (t * Q) :=
  let key := _get_bucket_key rl url in
  let now := clock + before_now tm in
  let clock1 := now + before_lookup tm in
  let rl1 := refill rl key now clock1 in
  if Qlt_le_dec (bucket rl1 key) tokens then
    wait_time <- truediv (tokens - bucket rl1 key) (rate rl1) ;;;
    let now2 := clock1 + Qmax wait_time 0 + sleep_overrun tm in
    let rl2 := refill rl1 key now2 now2 in
    Ok (consume rl2 key tokens, now2)
  else
    Ok (consume rl1 key tokens, clock1).

(** One call of a client: the URL, the amount and the clock's moves. *)
Record call : Type := mk_call {
  call_url : string;
  call_tokens : Q;
  call_timing : timing
}.

(** The limiter after each call of a sequence, in order. *)
Fixpoint acquire_all (rl : t) (clock : Q) (cs : list call)
  : result (list t) :=
  match cs with
  | [] => Ok []
  | c :: cs' =>
      r <- acquire rl clock (call_url c) (call_tokens c) (call_timing c) ;;;
      rest <- acquire_all (fst r) (snd r) cs' ;;;
      Ok (fst r :: rest)
  end.

End Urlparse.


Section Clients.
Variable netloc : string -> string.

(** [get_current_tokens(url)], called when the clock shows [clock], with
    [before_lookup] seconds between [now = time.time()] and the evaluation
    of [self.last_update[bucket_key]].  The method assigns nothing, but its
    two look-ups fill the [defaultdict]s for a key they do not hold. *)
Definition get_current_tokens (rl : t) (clock : Q) (url : string)
    (before_lookup : Q) : Q * t :=
  let key := _get_bucket_key netloc rl url in
  let now := clock in
  let '(last, lu) := defaultdict_get (last_update rl) key (now + before_lookup) in
  let elapsed := now - last in
  let '(b, bs) := defaultdict_get (buckets rl) key (inject_Z (burst rl)) in
  (Qmin (inject_Z (burst rl)) (b + elapsed * rate rl),
   set_last_update (set_buckets rl bs) lu).




End Clients.

(** Two limiters with the same settings and the same state of bucket [key]. *)
Definition agree_at (key : string) (rl rl2 : t) : Prop :=
  rate rl2 = rate rl /\ burst rl2 = burst rl /\ per_domain rl2 = per_domain rl /\
  buckets rl2 !! key = buckets rl !! key /\
  last_update rl2 !! key = last_update rl !! key.

End RateLimiter.

(** *** [ConcurrencyLimiter] *)

Module ConcurrencyLimiter.

(** The limiter with the semaphore objects it has created: a semaphore is
    named by its place in [created], which records the value it was created
    with; [semaphores] is the [dict] from domains to semaphores. *)
Record t : Type := mk_ConcurrencyLimiter {
  max_concurrent : Z;
  created : list Z;
  semaphores : gmap string nat
}.

Definition init (m : Z) : t :=
  {| max_concurrent := m; created := []; semaphores := ∅ |}.

(** [asyncio.Semaphore(value)]: a negative value is refused. *)
Definition new_semaphore (cl : t) (value : Z) : result (nat * t) :=
  if (value <? 0)%Z then Raise ValueError
  else Ok (length (created cl),
           {| max_concurrent := max_concurrent cl;
              created := created cl ++ [value];
              semaphores := semaphores cl |}).

Section Urlparse.
Variable netloc : string -> string.

Definition _get_domain (url : string) : string :=
  let n := netloc url in
  if decide (n = EmptyString) then "unknown"%string else n.

(** [acquire(url)]: the semaphore of the URL's domain, created on first use. *)
Definition acquire (cl : t) (url : string) : result (nat * t) :=
  let domain := _get_domain url in
  match semaphores cl !! domain with
  | Some sem => Ok (sem, cl)
  | None =>
      r <- new_semaphore cl (max_concurrent cl) ;;;
      Ok (fst r,
          {| max_concurrent := max_concurrent (snd r);
             created := created (snd r);
             semaphores := <[domain := fst r]> (semaphores (snd r)) |})
  end.

(** The semaphores handed out for the URLs of [urls], in order. *)
Fixpoint acquire_all (cl : t) (urls : list string) : result (list nat * t) :=
  match urls with
  | [] => Ok ([], cl)
  | url :: urls' =>
      r <- acquire cl url ;;;
      rest <- acquire_all (snd r) urls' ;;;
      Ok (fst r :: fst rest, snd rest)
  end.

End Urlparse.


End ConcurrencyLimiter.

(** ** collectors/rss.py *)

Module RSSCollector.
Import Datetime Models.

(** The settings the collector reads ([config.py]).  A feed is a
    [dict[str, str]] with the keys "url" and "name". *)
Record Settings : Type := mk_Settings {
  rss_feeds : list (gmap string string);
  max_age_days : Z;
  max_retries : Z;
  retry_delay : Q
}.

(** What the part of the [try] block up to [response.text()] comes to in one
    attempt: an exception (of the rate limiter, the semaphore or the
    transport, a time-out), or a response with its status and text. *)
Inductive fetched : Type :=
  | Failed (e : exn)
  | Response (status : Z) (text : string).

(** The outside world of one collection run.  Tasks are told apart by the
    position of their feed in [settings.rss_feeds], attempts by their number.
    [parse name text] is [self._get_parser(name).parse(text)]. *)
Record World : Type := mk_World {
  http_get : nat -> nat -> fetched;
  parse : string -> string -> result (list NewsItem);
  elapsed_at : nat -> nat -> Q;
  success_time : nat -> nat -> datetime;
  failure_time : nat -> datetime;
  collect_time : Z
}.

Definition dict_get (d : gmap string string) (key : string) : result string :=
  match d !! key with
  | Some v => Ok v
  | None => Raise (KeyError key)
  end.

Definition set_success_count (s : CollectorStats) (n : Z) : CollectorStats :=
  {| stats_source := stats_source s; success_count := n;
     failure_count := failure_count s; last_success := last_success s;
     last_failure := last_failure s; average_items := average_items s;
     average_response_time := average_response_time s |}.

Definition set_last_success (s : CollectorStats) (d : datetime) : CollectorStats :=
  {| stats_source := stats_source s; success_count := success_count s;
     failure_count := failure_count s; last_success := Some d;
     last_failure := last_failure s; average_items := average_items s;
     average_response_time := average_response_time s |}.

Definition set_average_response_time (s : CollectorStats) (q : Q) : CollectorStats :=
  {| stats_source := stats_source s; success_count := success_count s;
     failure_count := failure_count s; last_success := last_success s;
     last_failure := last_failure s; average_items := average_items s;
     average_response_time := q |}.

Definition set_average_items (s : CollectorStats) (q : Q) : CollectorStats :=
  {| stats_source := stats_source s; success_count := success_count s;
     failure_count := failure_count s; last_success := last_success s;
     last_failure := last_failure s; average_items := q;
     average_response_time := average_response_time s |}.

Definition record_failure (s : CollectorStats) (d : datetime) : CollectorStats :=
  {| stats_source := stats_source s; success_count := success_count s;
     failure_count := (failure_count s + 1)%Z; last_success := last_success s;
     last_failure := Some d; average_items := average_items s;
     average_response_time := average_response_time s |}.

(** The success branch's update of the statistics, statement by statement.
    The statistics object is shared, so what was assigned before an
    exception stays assigned. *)
Definition record_success (s : CollectorStats) (elapsed : Q) (n_items : nat)
    (now : datetime) : CollectorStats * result unit :=
  let s1 := set_success_count s (success_count s + 1)%Z in
  let s2 := set_last_success s1 now in
  let n := inject_Z (success_count s2) in
  match truediv (average_response_time s2 * (n - 1) + elapsed)%Q n with
  | Raise e => (s2, Raise e)
  | Ok rt =>
      let s3 := set_average_response_time s2 rt in
      match truediv (average_items s3 * (n - 1) + inject_Z (Z.of_nat n_items))%Q n with
      | Raise e => (s3, Raise e)
      | Ok ai => (set_average_items s3 ai, Ok tt)
      end
  end.

(** The body of the [try] block of [_fetch_feed] for one attempt. *)
Definition try_fetch (w : World) (idx attempt : nat) (name : string)
    (s : CollectorStats) : CollectorStats * result (list NewsItem) :=
  match http_get w idx attempt with
  | Failed e => (s, Raise e)
  | Response status text =>
      if negb (status =? 200)%Z then (s, Raise (ClientResponseError status))
      else
        match parse w name text with
        | Raise e => (s, Raise e)
        | Ok items =>
            match record_success s (elapsed_at w idx attempt) (length items)
                    (success_time w idx attempt) with
            | (s', Raise e) => (s', Raise e)
            | (s', Ok _) => (s', Ok items)
            end
        end
  end.

(** The [except] clause that takes an exception of the [try] block; all
    three only write to the log. *)
Inductive except_clause : Type :=
  | ExceptTimeoutError
  | ExceptClientError
  | ExceptException.

Definition caught_by (e : exn) : except_clause :=
  match e with
  | TimeoutError => ExceptTimeoutError
  | ClientError | ClientResponseError _ => ExceptClientError
  | _ => ExceptException
  end.

(** The delay before the retry that follows attempt number [attempt]. *)
Definition backoff_delay (st : Settings) (attempt : nat) : Q :=
  (retry_delay st * inject_Z (2 ^ Z.of_nat attempt))%Q.

(** [for attempt in range(settings.max_retries)], from attempt number
    [attempt] with [todo] attempts left: [Some items] when an attempt
    returns, [None] when the loop runs out.  Between two attempts the task
    only sleeps for [backoff_delay]. *)
Fixpoint retry_loop (w : World) (idx : nat) (name : string) (todo attempt : nat)
    (s : CollectorStats) : CollectorStats * option (list NewsItem) :=
  match todo with
  | O => (s, None)
  | S todo' =>
      match try_fetch w idx attempt name s with
      | (s', Ok items) => (s', Some items)
      | (s', Raise e) =>
          match caught_by e with
          | ExceptTimeoutError | ExceptClientError | ExceptException =>
              retry_loop w idx name todo' (S attempt) s'
          end
      end
  end.

Definition _fetch_feed (w : World) (st : Settings)
    (stats : gmap string CollectorStats) (idx : nat)
    (feed_config : gmap string string)
  : gmap string CollectorStats * result (list NewsItem) :=
  match dict_get feed_config "url" with
  | Raise e => (stats, Raise e)
  | Ok _ =>
      match dict_get feed_config "name" with
      | Raise e => (stats, Raise e)
      | Ok name =>
          match stats !! name with
          | None => (stats, Raise (KeyError name))
          | Some s =>
              match retry_loop w idx name (Z.to_nat (max_retries st)) 0 s with
              | (s', Some items) => (<[name := s']> stats, Ok items)
              | (s', None) =>
                  (<[name := record_failure s' (failure_time w idx)]> stats, Ok [])
              end
          end
      end
  end.

(** [asyncio.gather] with [return_exceptions=True]: one result per feed, in
    the order of the feeds, an exception that leaves a task being its result.
    A task only touches the statistics of its own feed name, so the tasks are
    run here one after the other. *)
Fixpoint gather (w : World) (st : Settings) (stats : gmap string CollectorStats)
    (idx : nat) (feeds : list (gmap string string))
  : gmap string CollectorStats * list (result (list NewsItem)) :=
  match feeds with
  | [] => (stats, [])
  | feed :: feeds' =>
      let '(stats1, r) := _fetch_feed w st stats idx feed in
      let '(stats2, rs) := gather w st stats1 (S idx) feeds' in
      (stats2, r :: rs)
  end.

(** The merge loop of [collect]: [all_items] and [seen_ids]. *)
Definition merge_item (acc : list NewsItem * gset string) (item : NewsItem)
  : list NewsItem * gset string :=
  if decide (id item ∈ acc.2) then acc
  else (acc.1 ++ [item], {[ id item ]} ∪ acc.2).

Definition merge_result (acc : list NewsItem * gset string)
    (r : result (list NewsItem)) : list NewsItem * gset string :=
  match r with
  | Raise _ => acc
  | Ok [] => acc
  | Ok items => fold_left merge_item items acc
  end.

Definition merge_results (results : list (result (list NewsItem)))
  : list NewsItem * gset string :=
  fold_left merge_result results ([], ∅).

(** A list comprehension with a condition that can raise. *)
Fixpoint filterM {A} (p : A -> result bool) (l : list A) : result (list A) :=
  match l with
  | [] => Ok []
  | a :: l' =>
      b <- p a ;;;
      rest <- filterM p l' ;;;
      Ok (if b : bool then a :: rest else rest)
  end.

(** [datetime.now(UTC)] at instant [t]. *)
Definition now_utc (t : Z) : datetime := {| fields := t; tzinfo := Some UTC |}.

(** The age filter of [collect]. *)
Definition filter_old (now : Z) (age_days : Z) (all_items : list NewsItem)
  : result (list NewsItem) :=
  let cutoff_date := minus_delta (now_utc now) (days age_days) in
  filterM (fun item => gt (replace_tzinfo (published_at item) UTC) cutoff_date)
          all_items.

Definition collect (w : World) (st : Settings) (stats : gmap string CollectorStats)
  : gmap string CollectorStats * result (list NewsItem) :=
  let '(stats', results) := gather w st stats 0 (rss_feeds st) in
  let all_items := (merge_results results).1 in
  (stats', filter_old (collect_time w) (max_age_days st) all_items).

(** [_init_stats]: fresh statistics for every configured feed name. *)
Definition _init_stats (st : Settings) : result (gmap string CollectorStats) :=
  fold_left (fun acc feed =>
               m <- acc ;;;
               name <- dict_get feed "name" ;;;
               Ok (<[name := new_stats name]> m))
            (rss_feeds st) (Ok ∅).

(** The items of the successful results, in the order of the merge. *)
Definition successful_items (results : list (result (list NewsItem)))
  : list NewsItem :=
  concat (map (fun r => match r with Ok items => items | Raise _ => [] end) results).

(** An attempt that cannot return items: the fetch fails, the status is not
    200, or the parser raises. *)
Definition attempt_fails (w : World) (idx : nat) (name : string) (attempt : nat)
  : Prop :=
  match http_get w idx attempt with
  | Failed _ => True
  | Response status text =>
      status <> 200%Z \/ exists e, parse w name text = Raise e
  end.

(** The feed at position [idx] fails on every attempt it is allowed. *)
Definition exhausts_retries (w : World) (st : Settings) (idx : nat)
    (feed : gmap string string) : Prop :=
  forall name attempt,
    feed !! "name"%string = Some name ->
    (attempt < Z.to_nat (max_retries st))%nat ->
    attempt_fails w idx name attempt.

(** [seen_ids] holds the ids of [all_items]. *)
Definition seen_ok (acc : list NewsItem * gset string) : Prop :=
  forall k, k ∈ acc.2 <-> exists x, x ∈ acc.1 /\ id x = k.

(** The instant a datetime denotes, a naive one being read as UTC. *)
Definition instant (dt : datetime) : Z :=
  (fields dt - default 0 (tzinfo dt))%Z.

(** A datetime that is naive (the parsers build those from UTC fields) or
    aware with the zone UTC. *)
Definition utc_or_naive (dt : datetime) : Prop :=
  tzinfo dt = None \/ tzinfo dt = Some UTC.

(** The delays that the loop of [_fetch_feed] passes to [asyncio.sleep], in
    order: after a failed attempt, and only if it is not the last one. *)
Fixpoint retry_loop_sleeps (w : World) (st : Settings) (idx : nat) (name : string)
    (todo attempt : nat) (s : CollectorStats) : list Q :=
  match todo with
  | O => []
  | S todo' =>
      match try_fetch w idx attempt name s with
      | (_, Ok _) => []
      | (s', Raise _) =>
          (if (Z.of_nat attempt <? max_retries st - 1)%Z
           then [backoff_delay st attempt] else [])
          ++ retry_loop_sleeps w st idx name todo' (S attempt) s'
      end
  end.


Definition sum_Q (l : list Q) : Q := foldr Qplus 0%Q l.

(** Two worlds that show the task of feed [idx] the same things during its
    first [n] attempts. *)
Definition same_attempts (n idx : nat) (w w2 : World) : Prop :=
  (forall name text, parse w2 name text = parse w name text) /\
  failure_time w2 idx = failure_time w idx /\
  forall attempt, (attempt < n)%nat ->
    http_get w2 idx attempt = http_get w idx attempt /\
    elapsed_at w2 idx attempt = elapsed_at w idx attempt /\
    success_time w2 idx attempt = success_time w idx attempt.

End RSSCollector.

(** ** deduplication/embeddings.py *)

Module EmbeddingService.
Local Open Scope R_scope.

(** A one-dimensional array of coordinates. *)
Definition embedding : Type := list R.

(** The sum of the products of the coordinates, position by position. *)
Fixpoint dot_aligned (a b : embedding) : R :=
  match a, b with
  | x :: a', y :: b' => x * y + dot_aligned a' b'
  | _, _ => 0
  end.

(** [np.dot] on two one-dimensional arrays: the shapes must agree. *)
Definition np_dot (a b : embedding) : result R :=
  if decide (length a = length b) then Ok (dot_aligned a b)
  else Raise ValueError.

(** [np.linalg.norm]. *)
Definition norm (a : embedding) : R := sqrt (dot_aligned a a).

(** Division of a number, and of an array, by a number.  A zero divisor is
    reported as a [ZeroDivisionError] (numpy would warn and produce an
    infinity or a NaN); the properties below show that the similarity
    functions never divide by zero. *)
Definition np_div (x y : R) : result R :=
  if Req_dec_T y 0 then Raise ZeroDivisionError else Ok (x / y).

Definition np_div_array (v : embedding) (y : R) : result embedding :=
  if Req_dec_T y 0 then Raise ZeroDivisionError
  else Ok (map (fun x => x / y) v).


(** One turn of the loop of [find_most_similar] over the candidates: the
    pair to append, if any. *)
Definition score_candidate (query_normalized : embedding) (threshold : R)
    (i : nat) (candidate : embedding) : result (option (nat * R)) :=
  let candidate_norm := norm candidate in
  if Req_dec_T candidate_norm 0 then Ok None
  else
    c <- np_div_array candidate candidate_norm ;;;
    d <- np_dot query_normalized c ;;;
    similarity <- np_div (d + 1) 2 ;;;
    if Rge_dec similarity threshold then Ok (Some (i, similarity))
    else Ok None.

(** The loop itself, from index [i] on. *)
Fixpoint score_candidates (query_normalized : embedding) (threshold : R)
    (i : nat) (candidates : list embedding) : result (list (nat * R)) :=
  match candidates with
  | [] => Ok []
  | c :: cs =>
      r <- score_candidate query_normalized threshold i c ;;;
      rest <- score_candidates query_normalized threshold (S i) cs ;;;
      Ok (match r with Some p => p :: rest | None => rest end)
  end.

(** [similarities.sort(key=lambda x: x[1], reverse=True)]: a stable sort, so
    that pairs of equal similarity keep their order. *)
Fixpoint insert_desc (p : nat * R) (l : list (nat * R)) : list (nat * R) :=
  match l with
  | [] => [p]
  | q :: l' =>
      if Rlt_dec (snd p) (snd q) then q :: insert_desc p l'
      else p :: q :: l'
  end.

Definition sort_desc (l : list (nat * R)) : list (nat * R) :=
  foldr insert_desc [] l.

(** [l[:k]]. *)
Definition slice_to {A} (k : Z) (l : list A) : list A :=
  if (0 <=? k)%Z then take (Z.to_nat k) l
  else take (length l - Z.to_nat (- k)) l.

Definition find_most_similar (query_embedding : embedding)
    (candidate_embeddings : list embedding) (threshold : R)
    (top_k : option Z) : result (list (nat * R)) :=
  if decide (length candidate_embeddings = 0%nat) then Ok []
  else
    let query_norm := norm query_embedding in
    if Req_dec_T query_norm 0 then Ok []
    else
      query_normalized <- np_div_array query_embedding query_norm ;;;
      similarities <- score_candidates query_normalized threshold 0
                        candidate_embeddings ;;;
      let sorted := sort_desc similarities in
      Ok (match top_k with
          | Some k => slice_to k sorted
          | None => sorted
          end).

(** *** The cache on disk *)

(** What a cache file holds: an array that [np.load] returns as it was
    saved, or something [np.load] fails on. *)
Inductive npy_file : Type :=
  | Npy (v : embedding)
  | Corrupt.

(** The service with the part of the world it acts on: the files under its
    cache directory, the paths on which [np.save] succeeds, and how many
    times the model has been run. *)
Record t : Type := mk_EmbeddingService {
  model_name : string;
  cache_dir : string;
  files : gmap string npy_file;
  save_succeeds : string -> bool;
  model_calls : nat
}.

Definition set_files (es : t) (fs : gmap string npy_file) : t :=
  {| model_name := model_name es; cache_dir := cache_dir es; files := fs;
     save_succeeds := save_succeeds es; model_calls := model_calls es |}.

Definition count_model_call (es : t) : t :=
  {| model_name := model_name es; cache_dir := cache_dir es; files := files es;
     save_succeeds := save_succeeds es; model_calls := S (model_calls es) |}.

Section Model.

(** [hashlib.sha256(s.encode()).hexdigest()]. *)
Variable sha256_hexdigest : string -> string.

(** [SentenceTransformer(model_name).encode(text)]; encoding a list of texts
    gives the embeddings of the texts. *)
Variable sentence_transformer : string -> string -> embedding.

(** [urlparse(url).netloc], which can raise on a malformed URL. *)
Variable urlparse_netloc : string -> result string.

Definition _get_cache_key (es : t) (text : string) : string :=
  sha256_hexdigest (model_name es ++ ":" ++ text).

Definition _get_cache_path (es : t) (cache_key : string) : string :=
  (cache_dir es ++ "/" ++ substring 0 2 cache_key ++ "/" ++ cache_key ++ ".npy")%string.

(** A file that does not load is removed and counts as a miss. *)
Definition _load_from_cache (es : t) (cache_key : string)
  : option embedding * t :=
  let cache_path := _get_cache_path es cache_key in
  match files es !! cache_path with
  | Some (Npy v) => (Some v, es)
  | Some Corrupt => (None, set_files es (delete cache_path (files es)))
  | None => (None, es)
  end.

(** [np.save] under the (existing) cache directory; a failed save is logged
    and otherwise ignored. *)
Definition _save_to_cache (es : t) (cache_key : string) (v : embedding) : t :=
  let cache_path := _get_cache_path es cache_key in
  if save_succeeds es cache_path
  then set_files es (<[cache_path := Npy v]> (files es))
  else es.

Definition model_encode (es : t) (text : string) : embedding * t :=
  (sentence_transformer (model_name es) text, count_model_call es).

Definition encode (es : t) (text : string) (use_cache : bool) : embedding * t :=
  let cache_key := _get_cache_key es text in
  let '(cached, es1) :=
    if use_cache then _load_from_cache es cache_key else (None, es) in
  match cached with
  | Some v => (v, es1)
  | None =>
      let '(v, es2) := model_encode es1 text in
      let es3 := if use_cache then _save_to_cache es2 cache_key v else es2 in
      (v, es3)
  end.

(** The first loop of [encode_batch]: the cached pairs, the texts to encode
    and their indices. *)
Fixpoint check_cache (es : t) (use_cache : bool) (i : nat) (texts : list string)
  : (list (nat * embedding) * list string * list nat) * t :=
  match texts with
  | [] => (([], [], []), es)
  | text :: texts' =>
      let '(cached, es1) :=
        if use_cache then _load_from_cache es (_get_cache_key es text)
        else (None, es) in
      let '((embeddings, texts_to_encode, text_indices), es2) :=
        check_cache es1 use_cache (S i) texts' in
      match cached with
      | Some v => (((i, v) :: embeddings, texts_to_encode, text_indices), es2)
      | None => ((embeddings, text :: texts_to_encode, i :: text_indices), es2)
      end
  end.

(** [embeddings.sort(key=lambda x: x[0])], stable. *)
Fixpoint insert_by_index (p : nat * embedding) (l : list (nat * embedding))
  : list (nat * embedding) :=
  match l with
  | [] => [p]
  | q :: l' =>
      if (fst q <? fst p)%nat then q :: insert_by_index p l'
      else p :: q :: l'
  end.

Definition sort_by_index (l : list (nat * embedding)) : list (nat * embedding) :=
  foldr insert_by_index [] l.

Definition encode_batch (es : t) (texts : list string) (use_cache : bool)
  : list embedding * t :=
  match texts with
  | [] => ([], es)
  | _ =>
      let '((embeddings, texts_to_encode, text_indices), es1) :=
        check_cache es use_cache 0 texts in
      let '(embeddings', es3) :=
        match texts_to_encode with
        | [] => (embeddings, es1)
        | _ =>
            let new_embeddings :=
              map (sentence_transformer (model_name es1)) texts_to_encode in
            let es2 := count_model_call es1 in
            let es3 :=
              if use_cache
              then fold_left (fun e tv => _save_to_cache e (_get_cache_key e tv.1) tv.2)
                             (zip texts_to_encode new_embeddings) es2
              else es2 in
            (embeddings ++ zip text_indices new_embeddings, es3)
        end in
      (map snd (sort_by_index embeddings'), es3)
  end.

(** The embedding the service has for a text: the cached array when the
    cache file of the text loads, the output of the model otherwise. *)
Definition embedding_of (es : t) (text : string) : embedding :=
  match files es !! _get_cache_path es (_get_cache_key es text) with
  | Some (Npy v) => v
  | _ => sentence_transformer (model_name es) text
  end.

Definition newline : string := String (Ascii.ascii_of_nat 10) EmptyString.

Definition combine_text_for_similarity (title content url : string) : string :=
  let domain :=
    match urlparse_netloc url with
    | Ok d => d
    | Raise _ => EmptyString
    end in
  let max_content_length := 500%nat in
  let content' :=
    if (max_content_length <? String.length content)%nat
    then (substring 0 max_content_length content ++ "...")%string
    else content in
  ("Title: " ++ title ++ newline ++ newline ++ "Content: " ++ content'
   ++ newline ++ newline ++ "Source: " ++ domain)%string.

End Model.

(** Two states of the service with the same settings and the same loadable
    cache files (loading only ever removes files that do not load). *)
Definition same_arrays (es es' : t) : Prop :=
  model_name es' = model_name es /\ cache_dir es' = cache_dir es /\
  forall path v, files es' !! path = Some (Npy v) <->
                 files es !! path = Some (Npy v).

(** The order of the indexed embeddings of [encode_batch]. *)
Definition le_index (p q : nat * embedding) : Prop := (p.1 <= q.1)%nat.

(** The real cosine of the angle between two vectors. *)
Definition cosine (a b : embedding) : R :=
  dot_aligned a b / (norm a * norm b).

Section CacheState.
Variable sha256_hexdigest : string -> string.

(** Whether the cache file of [text] exists and loads. *)
Definition is_cached (es : t) (text : string) : bool :=
  match files es !! _get_cache_path es (_get_cache_key sha256_hexdigest es text) with
  | Some (Npy _) => true
  | _ => false
  end.

End CacheState.

(** The order of the results of [find_most_similar]: by descending
    similarity, and by ascending index among equal similarities. *)
Definition ranked (p p' : nat * R) : Prop :=
  snd p' < snd p \/ (snd p' = snd p /\ (fst p < fst p')%nat).

End EmbeddingService.

(** ** deduplication/service.py, with the queries of storage/repositories.py *)

Module DeduplicationService.
Import Datetime Models EmbeddingService.

(** Rows of the tables [news_items] and [deduplication_cache]. *)
Record NewsItemDB : Type := mk_NewsItemDB {
  db_id : string;
  db_url : string;
  db_title : string;
  db_content : string;
  db_published_at : datetime;
  db_is_duplicate : bool
}.

Record DeduplicationCacheDB : Type := mk_DeduplicationCacheDB {
  url_hash : string;
  title_hash : string;
  content_hash : string;
  news_item_id : string
}.

Record Database : Type := mk_Database {
  news_items : list NewsItemDB;
  deduplication_cache : list DeduplicationCacheDB
}.

(** [result.scalar_one_or_none()]. *)
Definition scalar_one_or_none {A} (rows : list A) : result (option A) :=
  match rows with
  | [] => Ok None
  | [row] => Ok (Some row)
  | _ => Raise MultipleResultsFound
  end.

(** [NewsItemRepository.get_by_url]. *)
Definition get_by_url (db : Database) (u : string) : result (option NewsItemDB) :=
  scalar_one_or_none (filter (fun row => db_url row = u) (news_items db)).

(** Descending order on the stored [published_at], stable. *)
Fixpoint insert_newest (row : NewsItemDB) (l : list NewsItemDB) : list NewsItemDB :=
  match l with
  | [] => [row]
  | r :: l' =>
      if (fields (db_published_at row) <? fields (db_published_at r))%Z
      then r :: insert_newest row l'
      else row :: r :: l'
  end.

(** [NewsItemRepository.get_recent(days, limit=limit)] at instant [now]; the
    database compares the stored date and time fields. *)
Definition get_recent (db : Database) (now : Z) (lookback : Z) (limit : option Z)
  : list NewsItemDB :=
  let cutoff_date := minus_delta {| fields := now; tzinfo := Some UTC |}
                                 (days lookback) in
  let rows :=
    filter (fun row => (fields cutoff_date <= fields (db_published_at row))%Z
                       /\ db_is_duplicate row = false)
           (news_items db) in
  let ordered := foldr insert_newest [] rows in
  match limit with
  | Some n => if (n =? 0)%Z then ordered else take (Z.to_nat n) ordered
  | None => ordered
  end.

(** The verdict of a check (a [NamedTuple]). *)
Record DuplicateMatch : Type := mk_DuplicateMatch {
  is_duplicate : bool;
  original_id : option string;
  similarity_score : R;
  match_type : string
}.

Definition no_match : DuplicateMatch :=
  {| is_duplicate := false; original_id := None;
     similarity_score := 0%R; match_type := "none" |}.

(** The service: its embedding service, its settings and its session caches. *)
Record t : Type := mk_DeduplicationService {
  embedding_service : EmbeddingService.t;
  similarity_threshold : R;
  lookback_days : Z;
  _embedding_cache : gmap string embedding;
  _items_cache : list (NewsItemDB * embedding);
  _cache_loaded : bool
}.

Definition set_embedding_service (svc : t) (es : EmbeddingService.t) : t :=
  {| embedding_service := es;
     similarity_threshold := similarity_threshold svc;
     lookback_days := lookback_days svc;
     _embedding_cache := _embedding_cache svc;
     _items_cache := _items_cache svc;
     _cache_loaded := _cache_loaded svc |}.

(** [np.array(rows)] on a list of one-dimensional arrays: the rows must have
    one length. *)
Definition np_array (rows : list embedding) : result (list embedding) :=
  match rows with
  | [] => Ok []
  | r :: rest =>
      if forallb (fun r' => (length r' =? length r)%nat) rest then Ok rows
      else Raise ValueError
  end.




Section Collaborators.

Variable sha256_hexdigest : string -> string.
Variable sentence_transformer : string -> string -> embedding.
Variable urlparse_netloc : string -> result string.
(** [str.lower]. *)
Variable str_lower : string -> string.

(** [DeduplicationRepository._hash_text]. *)
Definition _hash_text (text : string) : string := sha256_hexdigest text.

(** [DeduplicationRepository.find_similar]; its [threshold] is not used. *)
Definition find_similar (db : Database) (u ttl cnt : string)
  : result (option DeduplicationCacheDB) :=
  let uh := _hash_text u in
  let th := _hash_text (str_lower ttl) in
  let ch := _hash_text (str_lower (substring 0 500 cnt)) in
  scalar_one_or_none
    (filter (fun row => url_hash row = uh \/
                        (title_hash row = th /\ content_hash row = ch))
            (deduplication_cache db)).

Definition combined_text_of_row (row : NewsItemDB) : string :=
  combine_text_for_similarity urlparse_netloc
    (db_title row) (db_content row) (db_url row).

Definition combined_text_of_item (item : NewsItem) : string :=
  combine_text_for_similarity urlparse_netloc
    (title item) (content item) (url item).

Definition load_recent_items_cache (svc : t) (db : Database) (now : Z) : t :=
  if _cache_loaded svc then svc
  else
    let recent_items := get_recent db now (lookback_days svc) (Some 1000%Z) in
    match recent_items with
    | [] =>
        {| embedding_service := embedding_service svc;
           similarity_threshold := similarity_threshold svc;
           lookback_days := lookback_days svc;
           _embedding_cache := _embedding_cache svc;
           _items_cache := _items_cache svc;
           _cache_loaded := true |}
    | _ =>
        let texts := map combined_text_of_row recent_items in
        let '(embeddings, es) :=
          encode_batch sha256_hexdigest sentence_transformer
            (embedding_service svc) texts true in
        let items_cache := zip recent_items embeddings in
        {| embedding_service := es;
           similarity_threshold := similarity_threshold svc;
           lookback_days := lookback_days svc;
           _embedding_cache :=
             fold_left (fun m p => <[db_id p.1 := p.2]> m) items_cache
                       (_embedding_cache svc);
           _items_cache := items_cache;
           _cache_loaded := true |}
    end.

Definition check_duplicate (svc : t) (db : Database) (now : Z)
    (news_item : NewsItem) : result (DuplicateMatch * t) :=
  let svc1 := load_recent_items_cache svc db now in
  existing <- get_by_url db (url news_item) ;;;
  match existing with
  | Some row =>
      Ok ({| is_duplicate := true; original_id := Some (db_id row);
             similarity_score := 1%R; match_type := "exact_url" |}, svc1)
  | None =>
      similar_cached <- find_similar db (url news_item) (title news_item)
                          (content news_item) ;;;
      match similar_cached with
      | Some entry =>
          Ok ({| is_duplicate := true; original_id := Some (news_item_id entry);
                 similarity_score := 1%R; match_type := "exact_title" |}, svc1)
      | None =>
          match _items_cache svc1 with
          | [] => Ok (no_match, svc1)
          | _ =>
              let combined_text := combined_text_of_item news_item in
              let '(item_embedding, es) :=
                encode sha256_hexdigest sentence_transformer
                  (embedding_service svc1) combined_text true in
              let svc2 := set_embedding_service svc1 es in
              candidate_embeddings <- np_array (map snd (_items_cache svc2)) ;;;
              similar_items <- find_most_similar item_embedding
                                 candidate_embeddings
                                 (similarity_threshold svc2) (Some 5%Z) ;;;
              match similar_items with
              | [] => Ok (no_match, svc2)
              | (best_idx, best_score) :: _ =>
                  match _items_cache svc2 !! best_idx with
                  | None => Raise IndexError
                  | Some (best_item, _) =>
                      d <- sub (published_at news_item)
                               (db_published_at best_item) ;;;
                      let time_diff := Qabs (total_seconds d) in
                      if Qlt_le_dec (7 * 24 * 3600) time_diff
                      then Ok (no_match, svc2)
                      else
                        Ok ({| is_duplicate := true;
                               original_id := Some (db_id best_item);
                               similarity_score := best_score;
                               match_type := "similar_content" |}, svc2)
                  end
              end
          end
      end
  end.

Definition _check_exact_matches (db : Database) (news_item : NewsItem)
  : result DuplicateMatch :=
  existing <- get_by_url db (url news_item) ;;;
  match existing with
  | Some row =>
      Ok {| is_duplicate := true; original_id := Some (db_id row);
            similarity_score := 1%R; match_type := "exact_url" |}
  | None => Ok no_match
  end.

(** One turn of the loop of [check_batch] over the items and their
    embeddings. *)
Definition check_batch_item (svc : t) (db : Database)
    (p : NewsItem * embedding) : result DuplicateMatch :=
  let '(item, item_embedding) := p in
  exact <- _check_exact_matches db item ;;;
  if is_duplicate exact then Ok exact
  else
    match _items_cache svc with
    | [] => Ok no_match
    | _ =>
        candidate_embeddings <- np_array (map snd (_items_cache svc)) ;;;
        similar_items <- find_most_similar item_embedding candidate_embeddings
                           (similarity_threshold svc) (Some 1%Z) ;;;
        match similar_items with
        | [] => Ok no_match
        | (best_idx, best_score) :: _ =>
            match _items_cache svc !! best_idx with
            | None => Raise IndexError
            | Some (best_item, _) =>
                d <- sub (published_at item) (db_published_at best_item) ;;;
                let time_diff := Qabs (total_seconds d) in
                if Qle_bool time_diff (7 * 24 * 3600)
                then Ok {| is_duplicate := true;
                           original_id := Some (db_id best_item);
                           similarity_score := best_score;
                           match_type := "similar_content" |}
                else Ok no_match
            end
        end
    end.

Definition check_batch (svc : t) (db : Database) (now : Z)
    (items : list NewsItem) : result (list DuplicateMatch * t) :=
  let svc1 := load_recent_items_cache svc db now in
  let texts := map combined_text_of_item items in
  let '(new_embeddings, es) :=
    encode_batch sha256_hexdigest sentence_transformer
      (embedding_service svc1) texts true in
  let svc2 := set_embedding_service svc1 es in
  results <- mapM (check_batch_item svc2 db) (zip items new_embeddings) ;;;
  Ok (results, svc2).

End Collaborators.

Section Session.

Variable sha256_hexdigest : string -> string.
Variable sentence_transformer : string -> string -> embedding.
Variable urlparse_netloc : string -> result string.

(** [DeduplicationService.add_to_cache]: the embedding of the item is
    computed and stored under the item's id in [_embedding_cache]. *)
Definition add_to_cache (svc : t) (news_item : NewsItem) : t :=
  let combined_text := combined_text_of_item urlparse_netloc news_item in
  let '(embedding, es) :=
    encode sha256_hexdigest sentence_transformer
      (embedding_service svc) combined_text true in
  {| embedding_service := es;
     similarity_threshold := similarity_threshold svc;
     lookback_days := lookback_days svc;
     _embedding_cache := <[id news_item := embedding]> (_embedding_cache svc);
     _items_cache := _items_cache svc;
     _cache_loaded := _cache_loaded svc |}.

End Session.

Definition clear_memory_cache (svc : t) : t :=
  {| embedding_service := embedding_service svc;
     similarity_threshold := similarity_threshold svc;
     lookback_days := lookback_days svc;
     _embedding_cache := ∅;
     _items_cache := [];
     _cache_loaded := false |}.

(** The order of the rows that [get_recent] returns: newest first. *)
Definition newest_first (r r' : NewsItemDB) : Prop :=
  (fields (db_published_at r') <= fields (db_published_at r))%Z.

End DeduplicationService.

(** ** storage/repositories.py: the writes *)

(** [NewsItemRepository].  Of the columns of [news_items] the rows carry
    those that [NewsItemDB] above has; [duplicate_of] is not among them. *)
Module NewsItemRepository.
Import Datetime Models DeduplicationService.

(** [create]: the flush inserts the row, and the table refuses a second row
    with the same primary key [id] or the same [url] (the constraint
    [uq_news_item_url] of storage/models.py). *)
Definition create (db : Database) (news_item : NewsItem)
  : result (NewsItemDB * Database) :=
  let db_item :=
    {| db_id := id news_item; db_url := url news_item;
       db_title := title news_item; db_content := content news_item;
       db_published_at := published_at news_item;
       db_is_duplicate := false |} in
  if decide (Exists (fun row => db_id row = id news_item \/
                                db_url row = url news_item) (news_items db))
  then Raise (Unexpected "IntegrityError")
  else Ok (db_item,
           {| news_items := news_items db ++ [db_item];
              deduplication_cache := deduplication_cache db |}).

Definition get_by_id (db : Database) (item_id : string)
  : result (option NewsItemDB) :=
  scalar_one_or_none (filter (fun row => db_id row = item_id) (news_items db)).

Definition set_is_duplicate (row : NewsItemDB) (b : bool) : NewsItemDB :=
  {| db_id := db_id row; db_url := db_url row; db_title := db_title row;
     db_content := db_content row; db_published_at := db_published_at row;
     db_is_duplicate := b |}.

(** [mark_as_duplicate]: the row found by its id is updated in place. *)
Definition mark_as_duplicate (db : Database) (item_id duplicate_of : string)
  : result (option NewsItemDB * Database) :=
  item <- get_by_id db item_id ;;;
  match item with
  | Some row =>
      Ok (Some (set_is_duplicate row true),
          {| news_items :=
               map (fun r => if decide (db_id r = item_id)
                             then set_is_duplicate r true else r)
                   (news_items db);
             deduplication_cache := deduplication_cache db |})
  | None => Ok (None, db)
  end.

End NewsItemRepository.

(** [DeduplicationRepository].  The columns [first_seen_at], [last_seen_at]
    and [occurrence_count] of [deduplication_cache], which no query of the
    deduplication service reads, are not represented: an entry that exists
    is returned with the columns it has here unchanged. *)
Module DeduplicationRepository.
Import Datetime Models DeduplicationService.

Section Hashing.
Variable sha256_hexdigest : string -> string.
Variable str_lower : string -> string.

Definition add_to_cache (db : Database) (news_item : NewsItemDB)
  : result (DeduplicationCacheDB * Database) :=
  let uh := _hash_text sha256_hexdigest (db_url news_item) in
  let th := _hash_text sha256_hexdigest (str_lower (db_title news_item)) in
  let ch := _hash_text sha256_hexdigest
              (str_lower (substring 0 500 (db_content news_item))) in
  existing <- scalar_one_or_none
                (filter (fun row => url_hash row = uh) (deduplication_cache db)) ;;;
  match existing with
  | Some entry => Ok (entry, db)
  | None =>
      let cache_entry :=
        {| url_hash := uh; title_hash := th; content_hash := ch;
           news_item_id := db_id news_item |} in
      Ok (cache_entry,
          {| news_items := news_items db;
             deduplication_cache := deduplication_cache db ++ [cache_entry] |})
  end.

End Hashing.

End DeduplicationRepository.

(** * Properties *)

Lemma bind_ok {A B} (r : result A) (k : A -> result B) b :
  bind r k = Ok b -> exists a, r = Ok a /\ k a = Ok b.
Proof. destruct r as [a|e]; simpl; [eauto | discriminate]. Qed.

(** ** Properties of models.py *)

Module ModelsFacts.
Import Datetime Models.

(** The guard [total > 0] covers every use of the division. *)
Lemma success_rate_never_raises (s : CollectorStats) :
  exists q, success_rate s = Ok q.
Proof.
  unfold success_rate, truediv.
  destruct (0 <? success_count s + failure_count s)%Z eqn:Hpos; [|eauto].
  apply Z.ltb_lt in Hpos.
  destruct (Qeq_dec _ 0) as [Heq|Hne]; [|eauto].
  exfalso. unfold Qeq in Heq. simpl in Heq. lia.
Qed.

(** C10. A source with no recorded attempt ([success_count = 0] and
    [failure_count = 0]) has [success_rate] 0.0, reached through the guard
    and not through a division, and its [health_status] is "unhealthy". *)
Theorem success_rate_untried_source (s : CollectorStats) :
  success_count s = 0%Z ->
  failure_count s = 0%Z ->
  success_rate s = Ok 0%Q /\ health_status s = Ok "unhealthy"%string.
Proof.
  intros Hs Hf.
  assert (Hrate : success_rate s = Ok 0%Q).
  { unfold success_rate. rewrite Hs, Hf. reflexivity. }
  split; [exact Hrate|].
  unfold health_status. rewrite Hrate. reflexivity.
Qed.

Lemma success_rate_untried_source_witness :
  success_rate (new_stats "TechCrunch AI") = Ok 0%Q /\
  health_status (new_stats "TechCrunch AI") = Ok "unhealthy"%string.
Proof.
  apply (success_rate_untried_source (new_stats "TechCrunch AI")); reflexivity.
Defined.




End ModelsFacts.


(** ** Properties of utils/rate_limiter.py *)

Module RateLimiterFacts.
Import Models RateLimiter.
Local Open Scope Q_scope.

Lemma defaultdict_get_fst_insert (d : gmap string Q) key v factory :
  fst (defaultdict_get (<[key := v]> d) key factory) = v.
Proof. unfold defaultdict_get. by rewrite lookup_insert_eq. Qed.

Lemma defaultdict_get_snd_insert (d : gmap string Q) key v factory :
  <[key := v]> (snd (defaultdict_get d key factory)) = <[key := v]> d.
Proof.
  unfold defaultdict_get. destruct (d !! key); simpl; [done|].
  apply insert_insert_eq.
Qed.


Section Urlparse.
Variable netloc : string -> string.

Lemma refill_buckets rl key now clock :
  buckets (refill rl key now clock) =
  <[key := Qmin (inject_Z (burst rl))
             (fst (defaultdict_get (buckets rl) key (inject_Z (burst rl)))
              + (now - fst (defaultdict_get (last_update rl) key clock)) * rate rl)]>
    (buckets rl).
Proof.
  unfold refill.
  pose proof (defaultdict_get_snd_insert (buckets rl) key) as Hins.
  destruct (defaultdict_get (last_update rl) key clock) as [last lu].
  destruct (defaultdict_get (buckets rl) key (inject_Z (burst rl))) as [b bs] eqn:Hb.
  simpl. specialize (Hins (Qmin (inject_Z (burst rl)) (b + (now - last) * rate rl))
                          (inject_Z (burst rl))).
  rewrite Hb in Hins. exact Hins.
Qed.

Lemma refill_last_update rl key now clock :
  last_update (refill rl key now clock) = <[key := now]> (last_update rl).
Proof.
  unfold refill.
  pose proof (defaultdict_get_snd_insert (last_update rl) key now clock) as Hins.
  destruct (defaultdict_get (last_update rl) key clock) as [last lu].
  destruct (defaultdict_get (buckets rl) key (inject_Z (burst rl))) as [b bs].
  simpl. exact Hins.
Qed.

Lemma refill_settings rl key now clock :
  rate (refill rl key now clock) = rate rl /\
  burst (refill rl key now clock) = burst rl /\
  per_domain (refill rl key now clock) = per_domain rl.
Proof.
  unfold refill.
  destruct (defaultdict_get (last_update rl) key clock) as [last lu].
  destruct (defaultdict_get (buckets rl) key (inject_Z (burst rl))) as [b bs].
  done.
Qed.

Lemma consume_buckets rl key tokens :
  buckets (consume rl key tokens) = <[key := bucket rl key - tokens]> (buckets rl).
Proof.
  unfold consume, bucket.
  pose proof (defaultdict_get_snd_insert (buckets rl) key) as Hins.
  destruct (defaultdict_get (buckets rl) key (inject_Z (burst rl))) as [b bs] eqn:Hb.
  simpl. specialize (Hins (b - tokens) (inject_Z (burst rl))).
  rewrite Hb in Hins. exact Hins.
Qed.

Lemma consume_settings rl key tokens :
  rate (consume rl key tokens) = rate rl /\
  burst (consume rl key tokens) = burst rl /\
  per_domain (consume rl key tokens) = per_domain rl.
Proof.
  unfold consume.
  destruct (defaultdict_get (buckets rl) key (inject_Z (burst rl))) as [b bs].
  done.
Qed.

Lemma bucket_refill rl key now clock :
  bucket (refill rl key now clock) key =
  Qmin (inject_Z (burst rl))
       (bucket rl key + (now - fst (defaultdict_get (last_update rl) key clock)) * rate rl).
Proof.
  unfold bucket at 1. rewrite refill_buckets. apply defaultdict_get_fst_insert.
Qed.




End Urlparse.



Section Clients.
Variable netloc : string -> string.

Lemma defaultdict_get_fst (d : gmap string Q) key factory :
  fst (defaultdict_get d key factory) = default factory (d !! key).
Proof. unfold defaultdict_get. by destruct (d !! key). Qed.




Lemma bucket_key_per_domain rl rl' url :
  per_domain rl' = per_domain rl ->
  _get_bucket_key netloc rl' url = _get_bucket_key netloc rl url.
Proof. unfold _get_bucket_key. by intros ->. Qed.


Lemma bucket_lookup rl key :
  bucket rl key = default (inject_Z (burst rl)) (buckets rl !! key).
Proof. unfold bucket. apply defaultdict_get_fst. Qed.









Lemma refill_agree key rl rl2 now clock :
  agree_at key rl rl2 ->
  agree_at key (refill rl key now clock) (refill rl2 key now clock).
Proof.
  intros (Hr & Hb & Hp & Hbs & Hlu).
  destruct (refill_settings rl key now clock) as (Hr1 & Hb1 & Hp1).
  destruct (refill_settings rl2 key now clock) as (Hr2 & Hb2 & Hp2).
  repeat split; try congruence.
  - rewrite !refill_buckets, !lookup_insert_eq, !defaultdict_get_fst.
    by rewrite Hr, Hb, Hbs, Hlu.
  - by rewrite !refill_last_update, !lookup_insert_eq.
Qed.

Lemma bucket_agree key rl rl2 : agree_at key rl rl2 -> bucket rl2 key = bucket rl key.
Proof. intros (Hr & Hb & Hp & Hbs & Hlu). by rewrite !bucket_lookup, Hb, Hbs. Qed.

Lemma consume_last_update rl key tokens :
  last_update (consume rl key tokens) = last_update rl.
Proof. unfold consume. by destruct (defaultdict_get (buckets rl) key _). Qed.

Lemma consume_agree key rl rl2 tokens :
  agree_at key rl rl2 ->
  agree_at key (consume rl key tokens) (consume rl2 key tokens).
Proof.
  intros Hag. pose proof (bucket_agree _ _ _ Hag) as Hbk.
  destruct Hag as (Hr & Hb & Hp & Hbs & Hlu).
  destruct (consume_settings rl key tokens) as (Hr1 & Hb1 & Hp1).
  destruct (consume_settings rl2 key tokens) as (Hr2 & Hb2 & Hp2).
  repeat split; try congruence.
  - by rewrite !consume_buckets, !lookup_insert_eq, Hbk.
  - by rewrite !consume_last_update.
Qed.

Lemma acquire_frame rl clock url tokens tm rl' clock' :
  acquire netloc rl clock url tokens tm = Ok (rl', clock') ->
  exists b' lu',
    buckets rl' = <[_get_bucket_key netloc rl url := b']> (buckets rl) /\
    last_update rl' = <[_get_bucket_key netloc rl url := lu']> (last_update rl).
Proof.
  unfold acquire.
  set (key := _get_bucket_key netloc rl url).
  set (now := clock + before_now tm).
  set (clock1 := now + before_lookup tm).
  set (rl1 := refill rl key now clock1).
  destruct (Qlt_le_dec (bucket rl1 key) tokens) as [Hlt|Hge].
  - intros Hacq. apply bind_ok in Hacq as (wait_time & _ & Hacq).
    injection Hacq as <- <-.
    eexists _, _. split.
    + rewrite consume_buckets, refill_buckets. unfold rl1.
      rewrite refill_buckets, !insert_insert_eq. reflexivity.
    + rewrite consume_last_update, refill_last_update. unfold rl1.
      rewrite refill_last_update, insert_insert_eq. reflexivity.
  - intros Hacq. injection Hacq as <- <-.
    eexists _, _. split.
    + rewrite consume_buckets. unfold rl1.
      rewrite refill_buckets, !insert_insert_eq. reflexivity.
    + rewrite consume_last_update. unfold rl1.
      rewrite refill_last_update. reflexivity.
Qed.

Lemma acquire_agree rl rl2 clock url tokens tm rl' clock' :
  agree_at (_get_bucket_key netloc rl url) rl rl2 ->
  acquire netloc rl clock url tokens tm = Ok (rl', clock') ->
  exists rl2',
    acquire netloc rl2 clock url tokens tm = Ok (rl2', clock') /\
    agree_at (_get_bucket_key netloc rl url) rl' rl2'.
Proof.
  intros Hag.
  assert (Hkey : _get_bucket_key netloc rl2 url = _get_bucket_key netloc rl url).
  { apply bucket_key_per_domain. apply Hag. }
  unfold acquire. rewrite Hkey.
  set (key := _get_bucket_key netloc rl url) in *.
  set (now := clock + before_now tm).
  set (clock1 := now + before_lookup tm).
  pose proof (refill_agree key rl rl2 now clock1 Hag) as Hag1.
  set (rl1 := refill rl key now clock1) in *.
  set (rl12 := refill rl2 key now clock1) in *.
  rewrite (bucket_agree _ _ _ Hag1).
  assert (Hrate : rate rl12 = rate rl1) by apply Hag1.
  rewrite Hrate.
  destruct (Qlt_le_dec (bucket rl1 key) tokens) as [Hlt|Hge].
  - destruct (truediv (tokens - bucket rl1 key) (rate rl1)) as [wait_time|e];
      simpl; [|discriminate].
    intros Hacq. injection Hacq as <- <-.
    eexists. split; [reflexivity|].
    apply consume_agree, refill_agree, Hag1.
  - intros Hacq. injection Hacq as <- <-.
    eexists. split; [reflexivity|].
    apply consume_agree, Hag1.
Qed.

(** X4. A call of [acquire] changes no bucket and no time stamp other than
    those of its own bucket key, and the contents of the other buckets have
    no part in what it does: started at the same time with the same moves of
    the clock (the wait for the limiter's lock is part of [before_now]), a
    limiter with the same settings and the same state of that one bucket
    returns at the same time and leaves that bucket in the same state. *)
Theorem acquire_only_concerns_its_own_bucket rl rl2 clock url tokens tm rl' clock' :
  let key := _get_bucket_key netloc rl url in
  acquire netloc rl clock url tokens tm = Ok (rl', clock') ->
  (forall k, k <> key ->
     buckets rl' !! k = buckets rl !! k /\
     last_update rl' !! k = last_update rl !! k) /\
  (agree_at key rl rl2 ->
   exists rl2',
     acquire netloc rl2 clock url tokens tm = Ok (rl2', clock') /\
     buckets rl2' !! key = buckets rl' !! key /\
     last_update rl2' !! key = last_update rl' !! key).
Proof.
  intros key Hacq. split.
  - intros k Hk.
    destruct (acquire_frame _ _ _ _ _ _ _ Hacq) as (b' & lu' & Hbs & Hlu).
    fold key in Hbs, Hlu.
    by rewrite Hbs, Hlu, !lookup_insert_ne.
  - intros Hag.
    destruct (acquire_agree _ _ _ _ _ _ _ _ Hag Hacq) as (rl2' & Hacq2 & Hag').
    exists rl2'. split; [exact Hacq2|]. split; apply Hag'.
Qed.

(** X5. [get_current_tokens] takes nothing and never overestimates: its
    value is at most [burst], the buckets that exist keep their contents,
    and a call of [acquire] for the same URL that is made later and asks for
    no more than the value returns without sleeping (the rate being at
    least 0). *)
Theorem get_current_tokens_is_a_safe_estimate rl clock url d v rl1 clock2 tokens tm :
  0 <= rate rl ->
  0 <= d ->
  timing_ok tm ->
  clock + d <= clock2 ->
  get_current_tokens netloc rl clock url d = (v, rl1) ->
  v <= inject_Z (burst rl) /\
  (forall k b, buckets rl !! k = Some b -> buckets rl1 !! k = Some b) /\
  (tokens <= v ->
   exists rl',
     acquire netloc rl1 clock2 url tokens tm =
     Ok (rl', clock2 + before_now tm + before_lookup tm)).
Proof.
  intros Hrate Hd (Hbn & Hbl & Hso) Hlater Hget.
  unfold get_current_tokens in Hget.
  set (key := _get_bucket_key netloc rl url) in *.
  pose proof (defaultdict_get_fst (last_update rl) key (clock + d)) as Hl.
  pose proof (defaultdict_get_fst (buckets rl) key (inject_Z (burst rl))) as Hb.
  destruct (defaultdict_get (last_update rl) key (clock + d)) as [last lu] eqn:Hdl.
  destruct (defaultdict_get (buckets rl) key (inject_Z (burst rl))) as [b0 bs] eqn:Hdb.
  simpl in Hl, Hb. injection Hget as <- <-.
  split; [apply Q.le_min_l|].
  split.
  { intros k b Hk. simpl. unfold defaultdict_get in Hdb.
    destruct (buckets rl !! key) eqn:Hkey; injection Hdb as <- <-; [done|].
    rewrite lookup_insert_ne; [done|]. intros <-. congruence. }
  intros Htok.
  set (rl1 := set_last_update (set_buckets rl bs) lu).
  assert (Hbs : buckets rl1 !! key = Some b0).
  { simpl. unfold defaultdict_get in Hdb.
    destruct (buckets rl !! key) eqn:Hkey; injection Hdb as <- <-; [done|].
    by rewrite lookup_insert_eq. }
  assert (Hlu : last_update rl1 !! key = Some last).
  { simpl. unfold defaultdict_get in Hdl.
    destruct (last_update rl !! key) eqn:Hkey; injection Hdl as <- <-; [done|].
    by rewrite lookup_insert_eq. }
  unfold acquire.
  assert (Hkey : _get_bucket_key netloc rl1 url = key) by reflexivity.
  rewrite Hkey.
  set (now := clock2 + before_now tm).
  set (clock1 := now + before_lookup tm).
  destruct (Qlt_le_dec (bucket (refill rl1 key now clock1) key) tokens) as [Hlt|Hge];
    [|eexists; reflexivity].
  exfalso. rewrite bucket_refill, bucket_lookup, defaultdict_get_fst, Hbs, Hlu in Hlt.
  simpl in Hlt.
  assert (Hle : Qmin (inject_Z (burst rl)) (b0 + (clock - last) * rate rl) <=
                Qmin (inject_Z (burst rl)) (b0 + (now - last) * rate rl)).
  { apply Q.min_le_compat_l.
    assert ((clock - last) * rate rl <= (now - last) * rate rl)
      by (apply Qmult_le_compat_r; unfold now; lra).
    lra. }
  lra.
Qed.

End Clients.



Lemma acquire_only_concerns_its_own_bucket_witness :
  let netloc := fun url : string =>
    if decide (url = "https://a.example/feed"%string)
    then "a.example"%string else "b.example"%string in
  let rl := mk_RateLimiter 2 5 true {[ "b.example"%string := 3 ]}
              {[ "b.example"%string := 0 ]} in
  let rl' := mk_RateLimiter 2 5 true
               (<[ "a.example"%string := 5 - 1 ]>
                  (<[ "a.example"%string := Qmin 5 (5 + (1 - 1) * 2) ]>
                     {[ "b.example"%string := 3 ]}))
               (<[ "a.example"%string := 1 ]>
                  (<[ "a.example"%string := 1 ]>
                     {[ "b.example"%string := 0 ]})) in
  acquire netloc rl 1 "https://a.example/feed" 1 (mk_timing 0 0 0)
    = Ok (rl', 1 + 0 + 0) /\
  buckets rl' !! "b.example"%string = buckets rl !! "b.example"%string /\
  last_update rl' !! "b.example"%string = last_update rl !! "b.example"%string.
Proof.
  intros netloc rl rl'.
  assert (Hacq : acquire netloc rl 1 "https://a.example/feed" 1 (mk_timing 0 0 0)
                 = Ok (rl', 1 + 0 + 0)) by (vm_compute; reflexivity).
  split; [exact Hacq|].
  refine (proj1 (acquire_only_concerns_its_own_bucket netloc rl rl 1
                   "https://a.example/feed" 1 (mk_timing 0 0 0) rl' (1 + 0 + 0) Hacq)
                "b.example"%string _).
  discriminate.
Defined.

Lemma get_current_tokens_is_a_safe_estimate_witness :
  let rl := mk_RateLimiter 2 5 true {[ "example.com"%string := 1 ]}
              {[ "example.com"%string := 0 ]} in
  Qmin 5 (1 + (1 - 0) * 2) <= inject_Z 5 /\
  (forall k b, buckets rl !! k = Some b -> buckets rl !! k = Some b) /\
  (3 <= Qmin 5 (1 + (1 - 0) * 2) ->
   exists rl',
     acquire (fun _ => "example.com"%string) rl 2
       "https://example.com/feed.xml" 3 (mk_timing 0 0 0) =
     Ok (rl', 2 + 0 + 0)).
Proof.
  intros rl.
  apply (get_current_tokens_is_a_safe_estimate (fun _ => "example.com"%string)
           rl 1 "https://example.com/feed.xml" 0 _ rl 2 3 (mk_timing 0 0 0)).
  - discriminate.
  - discriminate.
  - repeat split; discriminate.
  - discriminate.
  - reflexivity.
Defined.

End RateLimiterFacts.

(** ** The concurrency limiter *)

Module ConcurrencyLimiterFacts.
Import ConcurrencyLimiter.

Section Urlparse.
Variable netloc : string -> string.





End Urlparse.


End ConcurrencyLimiterFacts.

(** ** Properties of collectors/rss.py *)

Module RSSCollectorFacts.
Import Datetime Models RSSCollector.

(** *** The merge loop *)

Lemma seen_ok_init : seen_ok ([], ∅).
Proof.
  intros k. simpl. split.
  - intros H. by apply not_elem_of_empty in H.
  - intros (x & Hx & _). by apply not_elem_of_nil in Hx.
Qed.

Lemma merge_item_seen acc item : id item ∈ acc.2 -> merge_item acc item = acc.
Proof. intros Hin. unfold merge_item. by rewrite decide_True. Qed.

Lemma merge_item_new acc item :
  id item ∉ acc.2 -> merge_item acc item = (acc.1 ++ [item], {[ id item ]} ∪ acc.2).
Proof. intros Hin. unfold merge_item. by rewrite decide_False. Qed.

Lemma seen_ok_merge_item acc item : seen_ok acc -> seen_ok (merge_item acc item).
Proof.
  intros Hinv.
  destruct (decide (id item ∈ acc.2)) as [Hin|Hnotin];
    [by rewrite merge_item_seen|rewrite merge_item_new by done].
  intros k. simpl. rewrite elem_of_union, elem_of_singleton, (Hinv k). split.
  - intros [->|(x & Hx & Hk)].
    + exists item. split; [|done]. apply elem_of_app. right. by apply list_elem_of_singleton.
    + exists x. split; [|done]. apply elem_of_app. by left.
  - intros (x & Hx & Hk). apply elem_of_app in Hx as [Hx|Hx].
    + right. eauto.
    + apply list_elem_of_singleton in Hx. subst. by left.
Qed.

Lemma seen_ok_filter_nil acc k :
  seen_ok acc -> k ∉ acc.2 -> filter (fun y => id y = k) acc.1 = [].
Proof.
  intros Hinv Hk.
  destruct (filter (fun y => id y = k) acc.1) as [|x l] eqn:Hf; [done|].
  assert (Hx : x ∈ filter (fun y => id y = k) acc.1) by (rewrite Hf; left).
  apply list_elem_of_filter in Hx as [Hid Hx].
  exfalso. apply Hk. apply Hinv. eauto.
Qed.

(** After the items of one more list, the merged items with a given id are
    those there were, if any, and the first of the list with that id
    otherwise. *)
Lemma merge_items_filter items acc k :
  seen_ok acc ->
  seen_ok (fold_left merge_item items acc) /\
  filter (fun y => id y = k) (fold_left merge_item items acc).1 =
    if decide (k ∈ acc.2) then filter (fun y => id y = k) acc.1
    else option_list (List.find (fun y => bool_decide (id y = k)) items).
Proof.
  revert acc. induction items as [|x items IH]; intros acc Hinv.
  - simpl. split; [done|]. destruct (decide (k ∈ acc.2)); [done|].
    by apply seen_ok_filter_nil.
  - simpl fold_left.
    destruct (IH (merge_item acc x) (seen_ok_merge_item _ _ Hinv)) as [Hinv' Hf].
    split; [done|]. rewrite Hf. clear Hf IH.
    destruct (decide (id x ∈ acc.2)) as [Hx|Hx].
    + rewrite merge_item_seen by done.
      destruct (decide (k ∈ acc.2)) as [Hk|Hk]; [done|].
      simpl. rewrite bool_decide_eq_false_2; [done|]. congruence.
    + rewrite merge_item_new by done. simpl. rewrite filter_app.
      destruct (decide (k ∈ acc.2)) as [Hk|Hk].
      * rewrite decide_True by set_solver.
        rewrite filter_cons_False by congruence. by rewrite filter_nil, app_nil_r.
      * destruct (decide (id x = k)) as [Hid|Hid].
        -- rewrite decide_True by set_solver.
           rewrite bool_decide_eq_true_2 by done.
           rewrite filter_cons_True by done. rewrite filter_nil.
           by rewrite seen_ok_filter_nil.
        -- rewrite decide_False.
           ++ by rewrite bool_decide_eq_false_2.
           ++ rewrite elem_of_union, elem_of_singleton. intros [Heq|Hin]; [congruence|done].
Qed.

(** When no id repeats and none was seen before, every item is appended. *)
Lemma merge_items_distinct items acc :
  (forall x, x ∈ items -> id x ∉ acc.2) ->
  NoDup (map id items) ->
  (fold_left merge_item items acc).1 = acc.1 ++ items.
Proof.
  revert acc. induction items as [|x items IH]; intros acc Hfresh Hnd.
  - simpl. by rewrite app_nil_r.
  - simpl in *. apply NoDup_cons in Hnd as [Hx Hnd].
    rewrite merge_item_new by (apply Hfresh; left).
    rewrite IH; simpl.
    + by rewrite <- app_assoc.
    + intros y Hy. rewrite elem_of_union, elem_of_singleton.
      intros [Heq|Hin].
      * apply Hx. rewrite <- Heq. apply list_elem_of_In, in_map, list_elem_of_In, Hy.
      * by apply (Hfresh y); [right|].
    + done.
Qed.

(** Items are only ever appended, in the order in which they are met. *)
Lemma merge_items_sublist items acc :
  exists added,
    (fold_left merge_item items acc).1 = acc.1 ++ added /\ added `sublist_of` items.
Proof.
  revert acc. induction items as [|x items IH]; intros acc.
  - exists []. simpl. by rewrite app_nil_r.
  - simpl. destruct (IH (merge_item acc x)) as (added & Heq & Hsub).
    rewrite Heq. clear Heq.
    destruct (decide (id x ∈ acc.2)) as [Hx|Hx].
    + rewrite merge_item_seen by done.
      exists added. split; [done|]. by apply sublist_cons.
    + rewrite merge_item_new by done. simpl.
      exists (x :: added). split.
      * by rewrite <- app_assoc.
      * by apply sublist_skip.
Qed.

Lemma merge_result_items acc r :
  merge_result acc r =
  fold_left merge_item (match r with Ok items => items | Raise _ => [] end) acc.
Proof. destruct r as [[|x items]|e]; reflexivity. Qed.

Lemma fold_merge_result_items results acc :
  fold_left merge_result results acc =
  fold_left merge_item (successful_items results) acc.
Proof.
  revert acc. induction results as [|r results IH]; intros acc; [done|].
  unfold successful_items. simpl. rewrite fold_left_app, merge_result_items.
  apply IH.
Qed.

Lemma merge_results_items results :
  merge_results results = fold_left merge_item (successful_items results) ([], ∅).
Proof. apply fold_merge_result_items. Qed.

(** C4. In one aggregation pass, for every id carried by a candidate the
    merged list holds exactly one item with that id, the first candidate
    with it in iteration order; the merged list keeps the order of the
    candidates, and when all ids are distinct every candidate is kept. *)
Theorem merge_keeps_first_of_each_id (results : list (result (list NewsItem))) :
  let candidates := successful_items results in
  let merged := (merge_results results).1 in
  (forall x, x ∈ candidates ->
     exists first,
       List.find (fun y => bool_decide (id y = id x)) candidates = Some first /\
       filter (fun y => id y = id x) merged = [first]) /\
  merged `sublist_of` candidates /\
  (NoDup (map id candidates) -> merged = candidates).
Proof.
  intros candidates merged. unfold merged. rewrite merge_results_items.
  fold candidates. split; [|split].
  - intros x Hx.
    destruct (merge_items_filter candidates ([], ∅) (id x) seen_ok_init) as [_ Hf].
    rewrite decide_False in Hf by (simpl; apply not_elem_of_empty).
    destruct (List.find (fun y => bool_decide (id y = id x)) candidates)
      as [first|] eqn:Hfind.
    + exists first. by split.
    + exfalso. apply list_elem_of_In in Hx.
      apply (find_none _ _ Hfind) in Hx. by rewrite bool_decide_eq_true_2 in Hx.
  - destruct (merge_items_sublist candidates ([], ∅)) as (added & Heq & Hsub).
    by rewrite Heq.
  - intros Hnd. rewrite merge_items_distinct; [done| |done].
    intros y _. simpl. apply not_elem_of_empty.
Qed.

Lemma merge_keeps_first_of_each_id_witness :
  let a := mk_NewsItem "id-1" "https://example.com/a" "Breaking" "first copy"
             "Feed 1" (mk_datetime 100 None) in
  let b := mk_NewsItem "id-2" "https://example.com/b" "Different" ""
             "Feed 1" (mk_datetime 200 None) in
  let a' := mk_NewsItem "id-1" "https://example.com/a" "Breaking" "second copy"
              "Feed 2" (mk_datetime 300 None) in
  (merge_results [Ok [a; b]; Raise TimeoutError; Ok [a']]).1 = [a; b] /\
  filter (fun y => id y = "id-1"%string)
         (merge_results [Ok [a; b]; Raise TimeoutError; Ok [a']]).1 = [a].
Proof.
  intros a b a'.
  destruct (merge_keeps_first_of_each_id [Ok [a; b]; Raise TimeoutError; Ok [a']])
    as (Hfirst & _ & _).
  destruct (Hfirst a') as (first & Hfind & Hfilter).
  { unfold successful_items. simpl. apply list_elem_of_In. simpl. tauto. }
  split; [reflexivity|].
  simpl in Hfind. injection Hfind as <-. exact Hfilter.
Defined.

(** *** The age filter *)

Lemma gt_cutoff now age_days dt :
  gt (replace_tzinfo dt UTC) (minus_delta (now_utc now) (days age_days)) =
  Ok (bool_decide (now - days age_days < fields dt)%Z).
Proof.
  unfold gt, replace_tzinfo, minus_delta, now_utc, UTC. simpl.
  f_equal. rewrite !Z.sub_0_r.
  destruct (Z.ltb_spec (now - days age_days) (fields dt)).
  - by rewrite bool_decide_eq_true_2.
  - rewrite bool_decide_eq_false_2; [done|lia].
Qed.

Lemma filterM_total {A} (p : A -> result bool) (q : A -> Prop)
    `{!forall x, Decision (q x)} (l : list A) :
  Forall (fun x => p x = Ok (bool_decide (q x))) l ->
  filterM p l = Ok (filter q l).
Proof.
  intros Hp. induction Hp as [|x l Hx _ IH]; [done|].
  cbn [filterM]. rewrite Hx, IH. simpl.
  destruct (decide (q x)) as [Hq|Hq].
  - rewrite bool_decide_eq_true_2 by done. by rewrite filter_cons_True.
  - rewrite bool_decide_eq_false_2 by done. by rewrite filter_cons_False.
Qed.

(** Whatever the zone of [published_at], the filter compares its fields. *)
Lemma filter_old_filter now age_days all_items :
  filter_old now age_days all_items =
  Ok (filter (fun item => (now - days age_days < fields (published_at item))%Z)
             all_items).
Proof.
  unfold filter_old. apply filterM_total.
  apply Forall_forall. intros x _. apply gt_cutoff.
Qed.

Lemma instant_utc_or_naive dt : utc_or_naive dt -> instant dt = fields dt.
Proof.
  unfold instant, utc_or_naive, UTC.
  intros [-> | ->]; cbv [default from_option Datatypes.id]; lia.
Qed.

(** C6 (as amended). On items whose [published_at] is naive or in UTC, the
    age filter never raises and keeps exactly the items published strictly
    later than [now - max_age_days]; an item published at the cutoff itself
    is dropped.  An item published 30 days ago is dropped when
    [max_age_days = 7], one published an hour ago is kept. *)
Theorem filter_old_keeps_strictly_newer now age_days (all_items : list NewsItem) :
  Forall (fun item => utc_or_naive (published_at item)) all_items ->
  filter_old now age_days all_items =
    Ok (filter (fun item => (now - days age_days < instant (published_at item))%Z)
               all_items) /\
  (forall item, item ∈ all_items ->
     instant (published_at item) = (now - days age_days)%Z ->
     forall kept, filter_old now age_days all_items = Ok kept -> item ∉ kept) /\
  (forall item, item ∈ all_items -> age_days = 7%Z ->
     instant (published_at item) = (now - days 30)%Z ->
     forall kept, filter_old now age_days all_items = Ok kept -> item ∉ kept) /\
  (forall item, item ∈ all_items -> age_days = 7%Z ->
     instant (published_at item) = (now - hours 1)%Z ->
     forall kept, filter_old now age_days all_items = Ok kept -> item ∈ kept).
Proof.
  intros Hutc.
  assert (Hfilter : filter_old now age_days all_items =
    Ok (filter (fun item => (now - days age_days < instant (published_at item))%Z)
               all_items)).
  { unfold filter_old. apply filterM_total.
    apply Forall_forall. intros x Hx. rewrite gt_cutoff.
    rewrite Forall_forall in Hutc.
    by rewrite (instant_utc_or_naive _ (Hutc x Hx)). }
  split; [exact Hfilter|]. rewrite Hfilter. split; [|split].
  - intros item Hin Hat kept Hkept. injection Hkept as <-.
    rewrite list_elem_of_filter, Hat. intros [Hlt _]. lia.
  - intros item Hin -> Hat kept Hkept. injection Hkept as <-.
    rewrite list_elem_of_filter, Hat. intros [Hlt _]. unfold days in Hlt. lia.
  - intros item Hin -> Hat kept Hkept. injection Hkept as <-.
    rewrite list_elem_of_filter, Hat. split; [|done]. unfold days, hours. lia.
Qed.

Lemma filter_old_keeps_strictly_newer_witness :
  let now := 1700000000000000%Z in
  let old := mk_NewsItem "id-old" "https://example.com/old" "Old" "" "Feed"
               (mk_datetime (now - days 30) None) in
  let recent := mk_NewsItem "id-new" "https://example.com/new" "Recent" "" "Feed"
                  (mk_datetime (now - hours 1) (Some UTC)) in
  filter_old now 7 [old; recent] = Ok [recent].
Proof.
  intros now old recent.
  destruct (filter_old_keeps_strictly_newer now 7 [old; recent]) as (Hfilter & _).
  - constructor; [by left|]. constructor; [by right|]. constructor.
  - rewrite Hfilter. reflexivity.
Defined.

(** C6 (as stated) fails at the boundary: an item published exactly
    [max_age_days] before [now] is not older than [now - max_age], yet the
    strict comparison drops it. *)
Lemma filter_old_drops_item_at_cutoff :
  ~ (forall now age_days (all_items kept : list NewsItem) item,
       filter_old now age_days all_items = Ok kept ->
       item ∈ all_items ->
       (item ∉ kept <->
        (instant (published_at item)
         < instant (minus_delta (now_utc now) (days age_days)))%Z)).
Proof.
  intros Hclaim.
  pose (now := 1700000000000000%Z).
  pose (item := mk_NewsItem "id-1" "https://example.com/a" "Title" "" "Feed"
                  (mk_datetime (now - days 7) (Some UTC))).
  destruct (Hclaim now 7%Z [item] [] item) as [Hdrop _].
  - reflexivity.
  - left.
  - specialize (Hdrop (not_elem_of_nil item)). vm_compute in Hdrop. discriminate.
Qed.

(** *** Fetching and collecting *)

Lemma try_fetch_fails w idx attempt name s :
  attempt_fails w idx name attempt ->
  exists e, try_fetch w idx attempt name s = (s, Raise e).
Proof.
  unfold attempt_fails, try_fetch.
  destruct (http_get w idx attempt) as [e|status text]; [eauto|].
  intros [Hstatus|(e & Hparse)].
  - apply Z.eqb_neq in Hstatus. rewrite Hstatus. simpl. eauto.
  - destruct (status =? 200)%Z; simpl; [|eauto]. rewrite Hparse. eauto.
Qed.

(** A source whose attempts all fail leaves the retry loop without items and
    with its statistics as they were. *)
Lemma retry_loop_exhausted w idx name todo attempt s :
  (forall k, (attempt <= k < attempt + todo)%nat -> attempt_fails w idx name k) ->
  retry_loop w idx name todo attempt s = (s, None).
Proof.
  revert attempt. induction todo as [|todo IH]; intros attempt Hfail; [done|].
  simpl. destruct (try_fetch_fails w idx attempt name s) as (e & ->).
  { apply Hfail. lia. }
  assert (Hnext : retry_loop w idx name todo (S attempt) s = (s, None)).
  { apply IH. intros k Hk. apply Hfail. lia. }
  destruct (caught_by e); exact Hnext.
Qed.


(** With the feed's keys in place and its statistics initialised, the
    exhausted source returns the empty list and records one failure. *)
Lemma fetch_feed_exhausted_ok w st stats idx feed u name s :
  feed !! "url"%string = Some u ->
  feed !! "name"%string = Some name ->
  stats !! name = Some s ->
  exhausts_retries w st idx feed ->
  _fetch_feed w st stats idx feed =
  (<[name := record_failure s (failure_time w idx)]> stats, Ok []).
Proof.
  intros Hurl Hname Hs Hex. unfold _fetch_feed, dict_get.
  rewrite Hurl, Hname, Hs.
  rewrite retry_loop_exhausted; [done|].
  intros k Hk. apply (Hex name k Hname). lia.
Qed.




Lemma collect_unfold w st stats :
  (collect w st stats).2 =
  filter_old (collect_time w) (max_age_days st)
    (merge_results (gather w st stats 0 (rss_feeds st)).2).1.
Proof.
  unfold collect. by destruct (gather w st stats 0 (rss_feeds st)).
Qed.



(** *** Retries and statistics *)

Lemma retry_loop_failures w idx name todo : forall attempt k s,
  (forall a, (attempt <= a < attempt + k)%nat -> attempt_fails w idx name a) ->
  (k <= todo)%nat ->
  retry_loop w idx name todo attempt s =
  retry_loop w idx name (todo - k) (attempt + k) s.
Proof.
  induction todo as [|todo IH]; intros attempt k s Hfail Hk.
  - by replace k with 0%nat by lia.
  - destruct k as [|k].
    + by rewrite Nat.sub_0_r, Nat.add_0_r.
    + simpl.
      destruct (try_fetch_fails w idx attempt name s) as [e He]; [apply Hfail; lia|].
      rewrite He. replace (attempt + S k)%nat with (S attempt + k)%nat by lia.
      destruct (caught_by e); apply IH; try lia; intros a Ha; apply Hfail; lia.
Qed.

Lemma record_success_ok s elapsed n_items now :
  success_count s <> (-1)%Z ->
  exists s',
    record_success s elapsed n_items now = (s', Ok tt) /\
    success_count s' = (success_count s + 1)%Z /\
    failure_count s' = failure_count s /\
    last_failure s' = last_failure s /\
    last_success s' = Some now /\
    stats_source s' = stats_source s /\
    (average_items s' * inject_Z (success_count s + 1) ==
       average_items s * inject_Z (success_count s) + inject_Z (Z.of_nat n_items))%Q /\
    (average_response_time s' * inject_Z (success_count s + 1) ==
       average_response_time s * inject_Z (success_count s) + elapsed)%Q.
Proof.
  intros Hne. unfold record_success. cbn [success_count set_last_success set_success_count].
  set (n := inject_Z (success_count s + 1)).
  assert (Hn : ~ (n == 0)%Q).
  { unfold n. change 0%Q with (inject_Z 0). rewrite inject_Z_injective. lia. }
  assert (Hn1 : (n - 1 == inject_Z (success_count s))%Q).
  { unfold n. rewrite inject_Z_plus. change (inject_Z 1) with 1%Q. ring. }
  unfold truediv. destruct (Qeq_dec n 0) as [Hz|_]; [contradiction|].
  cbn [average_response_time average_items set_average_response_time
       set_last_success set_success_count].
  eexists. split; [reflexivity|]. cbn.
  repeat split; try reflexivity.
  - fold n. rewrite <- Hn1. field. exact Hn.
  - fold n. rewrite <- Hn1. field. exact Hn.
Qed.

(** X7. A fetch that succeeds after failed attempts counts as one success:
    when the first [k] attempts of a feed fail, [k] is below [max_retries],
    and attempt [k] gets status 200 and a text that parses, [_fetch_feed]
    returns the parsed items, adds 1 to [success_count], stamps
    [last_success] with the time of that attempt, and leaves [failure_count]
    and [last_failure] as they were. *)
Theorem fetch_feed_succeeds_after_failed_attempts w st stats idx feed u name s
    (k : nat) text items :
  feed !! "url"%string = Some u ->
  feed !! "name"%string = Some name ->
  stats !! name = Some s ->
  (k < Z.to_nat (max_retries st))%nat ->
  (forall a, (a < k)%nat -> attempt_fails w idx name a) ->
  http_get w idx k = Response 200 text ->
  parse w name text = Ok items ->
  success_count s <> (-1)%Z ->
  exists s',
    _fetch_feed w st stats idx feed = (<[name := s']> stats, Ok items) /\
    success_count s' = (success_count s + 1)%Z /\
    failure_count s' = failure_count s /\
    last_failure s' = last_failure s /\
    last_success s' = Some (success_time w idx k).
Proof.
  intros Hu Hname Hs Hk Hfail Hget Hparse Hne.
  destruct (record_success_ok s (elapsed_at w idx k) (length items)
              (success_time w idx k) Hne)
    as (s' & Hrec & Hsc & Hfc & Hlf & Hls & _).
  exists s'. split; [|done].
  unfold _fetch_feed, dict_get. rewrite Hu, Hname, Hs.
  rewrite (retry_loop_failures w idx name _ 0 k s); [|intros a Ha; apply Hfail; lia|lia].
  destruct (Z.to_nat (max_retries st) - k)%nat as [|todo] eqn:Htodo; [lia|].
  simpl. unfold try_fetch. rewrite Hget. simpl. rewrite Hparse, Hrec. reflexivity.
Qed.



Lemma try_fetch_same_attempt w w2 idx attempt name s :
  (forall name text, parse w2 name text = parse w name text) ->
  http_get w2 idx attempt = http_get w idx attempt ->
  elapsed_at w2 idx attempt = elapsed_at w idx attempt ->
  success_time w2 idx attempt = success_time w idx attempt ->
  try_fetch w2 idx attempt name s = try_fetch w idx attempt name s.
Proof.
  intros Hparse Hget Hel Hst. unfold try_fetch.
  by rewrite Hget, Hel, Hst; destruct (http_get w idx attempt); [|rewrite Hparse].
Qed.

Lemma retry_loop_same_attempts w w2 idx name todo : forall attempt s,
  same_attempts (attempt + todo) idx w w2 ->
  retry_loop w2 idx name todo attempt s = retry_loop w idx name todo attempt s.
Proof.
  induction todo as [|todo IH]; intros attempt s Hsame; [done|].
  simpl. destruct Hsame as (Hparse & Hft & Hatt).
  destruct (Hatt attempt) as (Hget & Hel & Hst); [lia|].
  rewrite (try_fetch_same_attempt w w2 idx attempt name s Hparse Hget Hel Hst).
  destruct (try_fetch w idx attempt name s) as [s' [items|e]]; [done|].
  destruct (caught_by e); apply IH;
    (split; [exact Hparse|]; split; [exact Hft|]; intros a Ha; apply Hatt; lia).
Qed.

(** X9. [_fetch_feed] makes at most [max_retries] attempts: its result
    and the statistics it leaves are the same in two worlds that differ only
    in what an attempt numbered [max_retries] or more would meet; and for
    [max_retries <= 0] it makes no attempt at all, returns the empty list
    and records one failure. *)
Theorem fetch_feed_makes_at_most_max_retries_attempts w w2 st stats idx feed :
  same_attempts (Z.to_nat (max_retries st)) idx w w2 ->
  _fetch_feed w2 st stats idx feed = _fetch_feed w st stats idx feed /\
  ((max_retries st <= 0)%Z ->
   forall u name s,
     feed !! "url"%string = Some u ->
     feed !! "name"%string = Some name ->
     stats !! name = Some s ->
     _fetch_feed w st stats idx feed =
     (<[name := record_failure s (failure_time w idx)]> stats, Ok [])).
Proof.
  intros Hsame. split.
  - unfold _fetch_feed.
    destruct (dict_get feed "url") as [u|e]; [|done].
    destruct (dict_get feed "name") as [name|e]; [|done].
    destruct (stats !! name) as [s|]; [|done].
    rewrite (retry_loop_same_attempts w w2 idx name _ 0 s Hsame).
    destruct Hsame as (_ & -> & _). reflexivity.
  - intros Hzero u name s Hu Hname Hs.
    unfold _fetch_feed, dict_get. rewrite Hu, Hname, Hs.
    replace (Z.to_nat (max_retries st)) with 0%nat by lia. reflexivity.
Qed.

Lemma sum_Q_app l1 l2 : (sum_Q (l1 ++ l2) == sum_Q l1 + sum_Q l2)%Q.
Proof.
  induction l1 as [|x l1 IH]; unfold sum_Q in *; simpl; [ring|].
  rewrite IH. ring.
Qed.

Lemma backoff_delay_succ st a :
  (backoff_delay st (S a) == 2 * backoff_delay st a)%Q.
Proof.
  unfold backoff_delay. rewrite Nat2Z.inj_succ, Z.pow_succ_r by lia.
  rewrite inject_Z_mult. change (inject_Z 2) with 2%Q. ring.
Qed.

Lemma sum_backoff_delays st m :
  (sum_Q (map (backoff_delay st) (seq 0 m)) ==
   retry_delay st * (inject_Z (2 ^ Z.of_nat m) - 1))%Q.
Proof.
  induction m as [|m IH].
  - unfold sum_Q. cbn [seq map foldr]. change (2 ^ Z.of_nat 0)%Z with 1%Z.
    change (inject_Z 1) with 1%Q. ring.
  - rewrite seq_S, map_app, sum_Q_app, IH. cbn [map Nat.add].
    unfold sum_Q. cbn [foldr]. unfold backoff_delay.
    rewrite Nat2Z.inj_succ, Z.pow_succ_r by lia.
    rewrite inject_Z_mult. change (inject_Z 2) with 2%Q. ring.
Qed.

Lemma retry_loop_sleeps_schedule w st idx name todo : forall attempt k s,
  (attempt + todo = Z.to_nat (max_retries st))%nat ->
  (k <= todo)%nat ->
  (forall a, (attempt <= a < attempt + k)%nat -> attempt_fails w idx name a) ->
  ((k < todo)%nat ->
   exists s' items, try_fetch w idx (attempt + k) name s = (s', Ok items)) ->
  retry_loop_sleeps w st idx name todo attempt s =
  map (backoff_delay st) (seq attempt (Nat.min k (todo - 1))).
Proof.
  induction todo as [|todo IH]; intros attempt k s Hn Hk Hfail Hsucc.
  { by replace k with 0%nat by lia. }
  simpl. destruct k as [|k].
  - destruct Hsucc as (s' & items & Htry); [lia|].
    rewrite Nat.add_0_r in Htry. by rewrite Htry.
  - destruct (try_fetch_fails w idx attempt name s) as [e He]; [apply Hfail; lia|].
    rewrite He, Nat.sub_0_r.
    rewrite (IH (S attempt) k s); try lia.
    + destruct (Z.ltb_spec (Z.of_nat attempt) (max_retries st - 1)) as [Hlt|Hge].
      * assert (todo <> 0)%nat by lia.
        replace (Nat.min (S k) todo) with (S (Nat.min k (todo - 1))) by lia.
        reflexivity.
      * assert (todo = 0)%nat as -> by lia. by replace k with 0%nat by lia.
    + intros a Ha. apply Hfail. lia.
    + intros Hlt. replace (S attempt + k)%nat with (attempt + S k)%nat by lia.
      apply Hsucc. lia.
Qed.

(** X10. The back-off schedule: when the first [k] attempts fail and
    attempt [k], if it is allowed, succeeds, the task sleeps
    [retry_delay * 2^a] after each failed attempt [a] except the last
    allowed one, so every delay is twice the one before, the first is
    [retry_delay], and the delays add up to
    [retry_delay * (2^m - 1)] for [m = min k (max_retries - 1)]. *)
Theorem backoff_doubles_between_attempts w st idx name s (k : nat) :
  let n := Z.to_nat (max_retries st) in
  let waits := retry_loop_sleeps w st idx name n 0 s in
  (k <= n)%nat ->
  (forall a, (a < k)%nat -> attempt_fails w idx name a) ->
  ((k < n)%nat -> exists s' items, try_fetch w idx k name s = (s', Ok items)) ->
  waits = map (backoff_delay st) (seq 0 (Nat.min k (n - 1))) /\
  (sum_Q waits ==
   retry_delay st * (inject_Z (2 ^ Z.of_nat (Nat.min k (n - 1))) - 1))%Q /\
  (forall a, (backoff_delay st (S a) == 2 * backoff_delay st a)%Q) /\
  (backoff_delay st 0 == retry_delay st)%Q.
Proof.
  intros n waits Hk Hfail Hsucc.
  assert (Hw : waits = map (backoff_delay st) (seq 0 (Nat.min k (n - 1)))).
  { unfold waits. apply retry_loop_sleeps_schedule; try done.
    intros a Ha. apply Hfail. lia. }
  split; [exact Hw|]. split; [rewrite Hw; apply sum_backoff_delays|].
  split; [apply backoff_delay_succ|].
  unfold backoff_delay. change (2 ^ Z.of_nat 0)%Z with 1%Z.
  change (inject_Z 1) with 1%Q. ring.
Qed.

(** *** Initialisation and the whole run *)

Lemma init_stats_fold_raise (feeds : list (gmap string string)) e :
  fold_left (fun (acc : result (gmap string CollectorStats)) feed =>
               bind acc (fun m =>
                 bind (dict_get feed "name") (fun name =>
                   Ok (<[name := new_stats name]> m))))
            feeds (Raise e) = Raise e.
Proof. induction feeds as [|f feeds IH]; [done|]. simpl. apply IH. Qed.

Lemma init_stats_fold feeds : forall (m0 stats : gmap string CollectorStats),
  fold_left (fun acc feed =>
               bind acc (fun m =>
                 bind (dict_get feed "name") (fun name =>
                   Ok (<[name := new_stats name]> m))))
            feeds (Ok m0) = Ok stats ->
  (forall name, is_Some (stats !! name) <->
     is_Some (m0 !! name) \/
     exists feed, feed ∈ feeds /\ feed !! "name"%string = Some name) /\
  (forall name s, stats !! name = Some s ->
     s = new_stats name \/ m0 !! name = Some s) /\
  Forall (fun feed => is_Some (feed !! "name"%string)) feeds.
Proof.
  induction feeds as [|feed feeds IH]; intros m0 stats Hfold.
  - simpl in Hfold. injection Hfold as <-. split; [|split; [|constructor]].
    + intros name. split; [by left|]. intros [H|(feed & Hin & _)]; [done|].
      by apply elem_of_nil in Hin.
    + intros name s Hs. by right.
  - simpl in Hfold. unfold dict_get in Hfold at 2.
    destruct (feed !! "name"%string) as [n|] eqn:Hn.
    + simpl in Hfold. destruct (IH _ _ Hfold) as (Hdom & Hval & Hnames).
      split; [|split; [|constructor; [by rewrite Hn|exact Hnames]]].
      * intros name. rewrite Hdom, lookup_insert_is_Some. split.
        -- intros [[<-|[_ H]]|(f & Hin & Hf)].
           ++ right. exists feed. split; [left|done].
           ++ by left.
           ++ right. exists f. split; [by right|done].
        -- intros [H|(f & Hin & Hf)].
           ++ left. destruct (decide (n = name)); [by left|by right].
           ++ apply elem_of_cons in Hin as [->|Hin].
              ** left. left. congruence.
              ** right. by exists f.
      * intros name s Hs. destruct (Hval name s Hs) as [H|H]; [by left|].
        destruct (decide (n = name)) as [->|Hne].
        -- rewrite lookup_insert_eq in H. left. congruence.
        -- rewrite lookup_insert_ne in H by done. by right.
    + simpl in Hfold. by rewrite init_stats_fold_raise in Hfold.
Qed.

Lemma fetch_feed_known_name w st stats idx feed u name :
  feed !! "url"%string = Some u ->
  feed !! "name"%string = Some name ->
  is_Some (stats !! name) ->
  exists s' items,
    _fetch_feed w st stats idx feed = (<[name := s']> stats, Ok items).
Proof.
  intros Hu Hname [s Hs]. unfold _fetch_feed, dict_get. rewrite Hu, Hname, Hs.
  destruct (retry_loop w idx name _ 0 s) as [s' [items|]]; eauto.
Qed.

Lemma gather_known_names w st feeds : forall stats idx,
  Forall (fun feed => is_Some (feed !! "url"%string) /\
                      exists name, feed !! "name"%string = Some name /\
                                   is_Some (stats !! name)) feeds ->
  Forall (fun r => exists items, r = Ok items) (gather w st stats idx feeds).2 /\
  forall name, is_Some ((gather w st stats idx feeds).1 !! name) <->
               is_Some (stats !! name).
Proof.
  induction feeds as [|feed feeds IH]; intros stats idx Hfeeds.
  - simpl. split; [constructor|done].
  - apply Forall_cons in Hfeeds as [([u Hu] & name & Hname & Hs) Hfeeds].
    destruct (fetch_feed_known_name w st stats idx feed u name Hu Hname Hs)
      as (s' & items & Hfetch).
    simpl. rewrite Hfetch.
    assert (Hdom : forall k, is_Some (<[name := s']> stats !! k) <-> is_Some (stats !! k)).
    { intros k. rewrite lookup_insert_is_Some. split.
      - intros [<-|[_ H]]; done.
      - intros Hk. destruct (decide (name = k)); [by left|by right]. }
    destruct (IH (<[name := s']> stats) (S idx)) as [Hok Hkeys].
    { eapply Forall_impl; [exact Hfeeds|]. intros f (Hfu & n & Hn & Hsn).
      split; [exact Hfu|]. exists n. split; [exact Hn|]. by apply Hdom. }
    destruct (gather w st (<[name := s']> stats) (S idx) feeds) as [stats2 rs].
    simpl in *. split; [constructor; eauto|].
    intros k. by rewrite Hkeys, Hdom.
Qed.

(** X11. When [_init_stats] has run through on settings whose feeds all
    have a "url", the statistics hold exactly the configured feed names,
    each with the zero statistics of [CollectorStats(source=name)]; a
    collection run then ends no task in an exception (in particular not in
    a [KeyError]) and neither adds nor drops a statistics entry. *)
Theorem initialised_collector_finds_all_statistics w st stats :
  _init_stats st = Ok stats ->
  Forall (fun feed => is_Some (feed !! "url"%string)) (rss_feeds st) ->
  (forall name, is_Some (stats !! name) <->
     exists feed, feed ∈ rss_feeds st /\ feed !! "name"%string = Some name) /\
  (forall name s, stats !! name = Some s -> s = new_stats name) /\
  Forall (fun r => exists items, r = Ok items)
         (gather w st stats 0 (rss_feeds st)).2 /\
  (forall name, is_Some ((gather w st stats 0 (rss_feeds st)).1 !! name) <->
                is_Some (stats !! name)).
Proof.
  intros Hinit Hurls. unfold _init_stats in Hinit.
  destruct (init_stats_fold _ _ _ Hinit) as (Hdom & Hval & Hnames).
  assert (Hdom' : forall name, is_Some (stats !! name) <->
     exists feed, feed ∈ rss_feeds st /\ feed !! "name"%string = Some name).
  { intros name. rewrite Hdom, lookup_empty. split; [|by right].
    intros [[? H]|H]; [done|exact H]. }
  split; [exact Hdom'|]. split.
  { intros name s Hs. destruct (Hval name s Hs) as [H|H]; [done|].
    by rewrite lookup_empty in H. }
  apply gather_known_names.
  rewrite Forall_forall in Hurls, Hnames. rewrite Forall_forall.
  intros feed Hin. split; [by apply Hurls|].
  destruct (Hnames feed Hin) as [name Hname].
  exists name. split; [done|]. apply Hdom'. by exists feed.
Qed.

Lemma merge_item_nodup acc item :
  seen_ok acc -> NoDup (map id acc.1) -> NoDup (map id (merge_item acc item).1).
Proof.
  intros Hseen Hnd. unfold merge_item.
  destruct (decide (id item ∈ acc.2)) as [Hin|Hnin]; [done|].
  simpl. rewrite map_app. simpl.
  apply NoDup_app. split; [exact Hnd|]. split; [|apply NoDup_singleton].
  intros k Hk Hk'. apply list_elem_of_singleton in Hk'. subst k.
  apply Hnin, Hseen. apply list_elem_of_fmap in Hk as (x & Hx & Hin).
  by exists x.
Qed.

Lemma merge_items_nodup items : forall acc,
  seen_ok acc -> NoDup (map id acc.1) ->
  NoDup (map id (fold_left merge_item items acc).1).
Proof.
  induction items as [|item items IH]; intros acc Hseen Hnd; [done|].
  simpl. apply IH; [by apply seen_ok_merge_item|by apply merge_item_nodup].
Qed.

(** X12. [collect] always returns a list whose items have pairwise distinct
    ids, occur in the order in which the successful feeds delivered them,
    and all have date and time fields strictly later than the cut-off
    [now - max_age_days]. *)
Theorem collect_returns_distinct_recent_items w st
    (stats : gmap string CollectorStats) :
  exists items,
    (collect w st stats).2 = Ok items /\
    NoDup (map id items) /\
    items `sublist_of` successful_items (gather w st stats 0 (rss_feeds st)).2 /\
    Forall (fun item =>
              (collect_time w - days (max_age_days st)
               < fields (published_at item))%Z) items.
Proof.
  rewrite collect_unfold, filter_old_filter. eexists. split; [reflexivity|].
  set (results := (gather w st stats 0 (rss_feeds st)).2).
  rewrite merge_results_items.
  split; [|split].
  - eapply sublist_NoDup.
    + apply (merge_items_nodup (successful_items results) ([], ∅));
        [apply seen_ok_init|constructor].
    + apply fmap_sublist, sublist_filter.
  - etransitivity; [apply sublist_filter|].
    destruct (merge_items_sublist (successful_items results) ([], ∅))
      as (added & -> & Hsub). exact Hsub.
  - apply Forall_forall. intros item Hin.
    by apply list_elem_of_filter in Hin as [H _].
Qed.

Lemma fetch_feed_succeeds_after_failed_attempts_witness :
  let item := mk_NewsItem "id-1" "https://good.example/a" "Title" "" "Feed 1"
                (mk_datetime 1000 (Some UTC)) in
  let w := mk_World
             (fun _ attempt => match attempt with
                               | O => Failed TimeoutError
                               | _ => Response 200 "<rss/>"
                               end)
             (fun _ _ => Ok [item])
             (fun _ _ => 1 # 2)
             (fun _ _ => mk_datetime 2000 (Some UTC))
             (fun _ => mk_datetime 3000 (Some UTC))
             4000 in
  let st := mk_Settings [] 7 3 1 in
  let feed : gmap string string :=
    {[ "url"%string := "https://good.example/feed"%string;
       "name"%string := "Feed 1"%string ]} in
  let stats : gmap string CollectorStats :=
    {[ "Feed 1"%string := new_stats "Feed 1" ]} in
  exists s',
    _fetch_feed w st stats 0 feed = (<["Feed 1"%string := s']> stats, Ok [item]) /\
    success_count s' = 1%Z /\
    failure_count s' = 0%Z /\
    last_failure s' = None /\
    last_success s' = Some (mk_datetime 2000 (Some UTC)).
Proof.
  intros item w st feed stats.
  apply (fetch_feed_succeeds_after_failed_attempts w st stats 0 feed
           "https://good.example/feed" "Feed 1" (new_stats "Feed 1") 1 "<rss/>" [item]).
  - reflexivity.
  - reflexivity.
  - reflexivity.
  - simpl. lia.
  - intros a Ha. replace a with 0%nat by lia. exact I.
  - reflexivity.
  - reflexivity.
  - discriminate.
Defined.


Lemma fetch_feed_makes_at_most_max_retries_attempts_witness :
  let w := mk_World (fun _ _ => Failed TimeoutError) (fun _ _ => Ok [])
             (fun _ _ => 1 # 2) (fun _ _ => mk_datetime 2000 (Some UTC))
             (fun _ => mk_datetime 3000 (Some UTC)) 4000 in
  let w2 := mk_World
              (fun _ attempt => if (attempt <? 3)%nat then Failed TimeoutError
                                else Response 200 "<rss/>")
              (fun _ _ => Ok [])
              (fun _ _ => 1 # 2) (fun _ _ => mk_datetime 2000 (Some UTC))
              (fun _ => mk_datetime 3000 (Some UTC)) 5000 in
  let st := mk_Settings [] 7 3 1 in
  let feed : gmap string string :=
    {[ "url"%string := "https://bad.example/feed"%string;
       "name"%string := "Feed 1"%string ]} in
  let stats : gmap string CollectorStats :=
    {[ "Feed 1"%string := new_stats "Feed 1" ]} in
  _fetch_feed w2 st stats 0 feed = _fetch_feed w st stats 0 feed.
Proof.
  intros w w2 st feed stats.
  refine (proj1 (fetch_feed_makes_at_most_max_retries_attempts w w2 st stats 0 feed _)).
  split; [reflexivity|]. split; [reflexivity|].
  intros attempt Ha. simpl in Ha.
  destruct attempt as [|[|[|attempt]]]; [by repeat split..|lia].
Defined.

Lemma backoff_doubles_between_attempts_witness :
  let w := mk_World (fun _ _ => Failed TimeoutError) (fun _ _ => Ok [])
             (fun _ _ => 1 # 2) (fun _ _ => mk_datetime 2000 (Some UTC))
             (fun _ => mk_datetime 3000 (Some UTC)) 4000 in
  let st := mk_Settings [] 7 3 1 in
  retry_loop_sleeps w st 0 "Feed 1" 3 0 (new_stats "Feed 1") =
    [backoff_delay st 0; backoff_delay st 1] /\
  (sum_Q (retry_loop_sleeps w st 0 "Feed 1" 3 0 (new_stats "Feed 1")) ==
   1 * (inject_Z (2 ^ 2) - 1))%Q.
Proof.
  intros w st.
  destruct (backoff_doubles_between_attempts w st 0 "Feed 1" (new_stats "Feed 1") 3)
    as (Hw & Hsum & _).
  - simpl. lia.
  - intros a Ha. exact I.
  - simpl. lia.
  - split; [exact Hw|exact Hsum].
Defined.

Lemma initialised_collector_finds_all_statistics_witness :
  let w := mk_World (fun _ _ => Failed TimeoutError) (fun _ _ => Ok [])
             (fun _ _ => 1 # 2) (fun _ _ => mk_datetime 2000 (Some UTC))
             (fun _ => mk_datetime 3000 (Some UTC)) 4000 in
  let st := mk_Settings
              [ {[ "url"%string := "https://a.example/feed"%string;
                   "name"%string := "Feed 1"%string ]};
                {[ "url"%string := "https://b.example/feed"%string;
                   "name"%string := "Feed 2"%string ]} ]
              7 3 1 in
  let stats : gmap string CollectorStats :=
    <["Feed 2"%string := new_stats "Feed 2"]>
      (<["Feed 1"%string := new_stats "Feed 1"]> ∅) in
  Forall (fun r => exists items, r = Ok items) (gather w st stats 0 (rss_feeds st)).2.
Proof.
  intros w st stats.
  refine (proj1 (proj2 (proj2
            (initialised_collector_finds_all_statistics w st stats _ _)))).
  - reflexivity.
  - repeat constructor; by eexists.
Defined.

Lemma collect_items w st (stats : gmap string CollectorStats) :
  exists items,
    (collect w st stats).2 = Ok items /\
    NoDup (map id items) /\
    items `sublist_of` successful_items (gather w st stats 0 (rss_feeds st)).2.
Proof.
  rewrite collect_unfold, filter_old_filter. eexists. split; [reflexivity|].
  set (results := (gather w st stats 0 (rss_feeds st)).2).
  rewrite merge_results_items. split.
  - eapply sublist_NoDup.
    + apply (merge_items_nodup (successful_items results) ([], ∅));
        [apply seen_ok_init|constructor].
    + apply fmap_sublist, sublist_filter.
  - etransitivity; [apply sublist_filter|].
    destruct (merge_items_sublist (successful_items results) ([], ∅))
      as (added & -> & Hsub). exact Hsub.
Qed.

(** X13. [collect] keeps one item per URL and title: when the items the
    feeds deliver have the id that [generate_id] derives from the URL and the
    title (none was given one of its own), no two of the items that
    [collect] returns have both the same URL and the same title. *)
Theorem collect_keeps_one_item_per_url_and_title
    (sha256_hexdigest : string -> string) w st
    (stats : gmap string CollectorStats) :
  Forall (fun item => id item = generate_id sha256_hexdigest None (url item) (title item))
         (successful_items (gather w st stats 0 (rss_feeds st)).2) ->
  exists items,
    (collect w st stats).2 = Ok items /\
    NoDup (map (fun item => (url item, title item)) items).
Proof.
  intros Hids.
  destruct (collect_items w st stats) as (items & Hrun & Hnd & Hsub).
  exists items. split; [exact Hrun|].
  assert (Hmap : map id items =
                 map (fun p => sha256_hexdigest (p.1 ++ p.2)%string)
                     (map (fun item => (url item, title item)) items)).
  { rewrite map_map. apply map_ext_in. intros item Hin. simpl.
    rewrite Forall_forall in Hids. rewrite (Hids item); [done|].
    eapply elem_of_sublist; [|exact Hsub]. by apply list_elem_of_In. }
  rewrite Hmap in Hnd. by apply NoDup_fmap_1 in Hnd.
Qed.

Lemma collect_keeps_one_item_per_url_and_title_witness :
  let sha := fun s : string => s in
  let a := mk_NewsItem (sha ("https://example.com/a" ++ "Breaking")%string)
             "https://example.com/a" "Breaking" "first copy" "Feed 1"
             (mk_datetime 3000 None) in
  let a' := mk_NewsItem (sha ("https://example.com/a" ++ "Breaking")%string)
              "https://example.com/a" "Breaking" "second copy" "Feed 2"
              (mk_datetime 3500 None) in
  let w := mk_World (fun _ _ => Response 200 "<rss/>")
             (fun name _ => if decide (name = "Feed 1"%string)
                            then Ok [a] else Ok [a'])
             (fun _ _ => 1 # 2) (fun _ _ => mk_datetime 2000 (Some UTC))
             (fun _ => mk_datetime 3000 (Some UTC)) 4000 in
  let st := mk_Settings
              [ {[ "url"%string := "https://a.example/feed"%string;
                   "name"%string := "Feed 1"%string ]};
                {[ "url"%string := "https://b.example/feed"%string;
                   "name"%string := "Feed 2"%string ]} ]
              7 3 1 in
  let stats : gmap string CollectorStats :=
    <["Feed 2"%string := new_stats "Feed 2"]>
      (<["Feed 1"%string := new_stats "Feed 1"]> ∅) in
  exists items,
    (collect w st stats).2 = Ok items /\
    NoDup (map (fun item => (url item, title item)) items).
Proof.
  intros sha a a' w st stats.
  apply (collect_keeps_one_item_per_url_and_title sha w st stats).
  repeat constructor.
Defined.

End RSSCollectorFacts.

(** ** Properties of deduplication/embeddings.py *)

Module EmbeddingServiceFacts.
Import EmbeddingService.
Local Open Scope R_scope.

(** *** Dot products and norms *)









Lemma np_div_ok x y : y <> 0 -> np_div x y = Ok (x / y).
Proof. intros Hy. unfold np_div. by destruct (Req_dec_T y 0). Qed.

Lemma np_div_array_ok v y :
  y <> 0 -> np_div_array v y = Ok (map (fun x => x / y) v).
Proof. intros Hy. unfold np_div_array. by destruct (Req_dec_T y 0). Qed.

Lemma two_nonzero : 2 <> 0.
Proof. lra. Qed.

(** *** [cosine_similarity] *)




(** *** [find_most_similar] *)

Lemma dot_scaled (a b : embedding) k m :
  k <> 0 -> m <> 0 ->
  dot_aligned (map (fun x => x / k) a) (map (fun x => x / m) b) =
  dot_aligned a b / (k * m).
Proof.
  intros Hk Hm. revert b. induction a as [|x a IH]; intros b.
  - simpl. field. done.
  - destruct b as [|y b]; simpl.
    + field. done.
    + rewrite IH. field. done.
Qed.

(** The similarity the loop computes for a candidate. *)
Lemma score_candidate_spec q threshold i c :
  norm q <> 0 ->
  score_candidate (map (fun x => x / norm q) q) threshold i c =
  if Req_dec_T (norm c) 0 then Ok None
  else if decide (length q = length c) then
         Ok (if Rge_dec ((cosine q c + 1) / 2) threshold
             then Some (i, (cosine q c + 1) / 2) else None)
       else Raise ValueError.
Proof.
  intros Hq. unfold score_candidate.
  destruct (Req_dec_T (norm c) 0) as [|Hc]; [done|].
  rewrite np_div_array_ok by done. simpl. unfold np_dot.
  rewrite !length_map.
  destruct (decide (length q = length c)); [|done]. simpl.
  rewrite np_div_ok by apply two_nonzero. simpl.
  rewrite dot_scaled by done. fold (cosine q c).
  by destruct (Rge_dec ((cosine q c + 1) / 2) threshold).
Qed.

Lemma score_candidates_cons qn threshold i c cs :
  score_candidates qn threshold i (c :: cs) =
  bind (score_candidate qn threshold i c) (fun r =>
    bind (score_candidates qn threshold (S i) cs) (fun rest =>
      Ok (match r with Some p => p :: rest | None => rest end))).
Proof. reflexivity. Qed.





(** The sort rearranges the pairs and puts them in descending order of
    similarity. *)
Lemma insert_desc_perm p l : insert_desc p l ≡ₚ p :: l.
Proof.
  induction l as [|q l IH]; simpl; [done|].
  destruct (Rlt_dec (snd p) (snd q)); [|done].
  rewrite IH. apply Permutation_swap.
Qed.

Lemma sort_desc_perm l : sort_desc l ≡ₚ l.
Proof.
  induction l as [|p l IH]; simpl; [done|].
  unfold sort_desc in *. simpl. by rewrite insert_desc_perm, IH.
Qed.



Lemma slice_to_sublist {A} k (l : list A) : slice_to k l `sublist_of` l.
Proof. unfold slice_to. destruct (0 <=? k)%Z; apply sublist_take. Qed.


Lemma find_most_similar_unfold q cands threshold top_k :
  cands <> [] -> norm q <> 0 ->
  find_most_similar q cands threshold top_k =
  bind (score_candidates (map (fun x => x / norm q) q) threshold 0 cands)
       (fun sims => Ok (match top_k with
                        | Some k => slice_to k (sort_desc sims)
                        | None => sort_desc sims
                        end)).
Proof.
  intros Hne Hq. unfold find_most_similar.
  rewrite decide_False by (destruct cands; done).
  destruct (Req_dec_T (norm q) 0); [done|].
  by rewrite np_div_array_ok.
Qed.

Lemma find_most_similar_zero_query q cands threshold top_k :
  norm q = 0 -> find_most_similar q cands threshold top_k = Ok [].
Proof.
  intros Hz. unfold find_most_similar.
  destruct (decide (length cands = 0%nat)); [done|].
  by destruct (Req_dec_T (norm q) 0).
Qed.







(** *** The cache *)

Section Model.
Variable sha256_hexdigest : string -> string.
Variable sentence_transformer : string -> string -> embedding.

Local Abbreviation encode := (encode sha256_hexdigest sentence_transformer).
Local Abbreviation _get_cache_key := (_get_cache_key sha256_hexdigest).

(** The outcome of [encode] with the cache in use, by what the cache file of
    the text holds and whether a save succeeds. *)
Lemma encode_cached es text v :
  files es !! _get_cache_path es (_get_cache_key es text) = Some (Npy v) ->
  encode es text true = (v, es).
Proof.
  intros Hfile. unfold EmbeddingService.encode, _load_from_cache.
  by rewrite Hfile.
Qed.

Lemma encode_miss es text :
  (forall v, files es !! _get_cache_path es (_get_cache_key es text) <> Some (Npy v)) ->
  let path := _get_cache_path es (_get_cache_key es text) in
  let v := sentence_transformer (model_name es) text in
  encode es text true =
  (v, {| model_name := model_name es; cache_dir := cache_dir es;
         files := if save_succeeds es path
                  then <[path := Npy v]> (files es)
                  else delete path (files es);
         save_succeeds := save_succeeds es;
         model_calls := S (model_calls es) |}).
Proof.
  intros Hmiss path v. unfold EmbeddingService.encode, _load_from_cache.
  fold path.
  destruct (files es !! path) as [[v0|]|] eqn:Hfile.
  - by destruct (Hmiss v0).
  - unfold model_encode, _save_to_cache.
    change (_get_cache_path (count_model_call _) _) with path.
    change (save_succeeds (count_model_call _)) with (save_succeeds es).
    destruct (save_succeeds es path); unfold set_files, count_model_call; simpl.
    + by rewrite insert_delete_eq.
    + done.
  - unfold model_encode, _save_to_cache.
    change (_get_cache_path (count_model_call _) _) with path.
    change (save_succeeds (count_model_call _)) with (save_succeeds es).
    destruct (save_succeeds es path); unfold set_files, count_model_call; simpl.
    + done.
    + by rewrite delete_id.
Qed.


(** *** [encode_batch] against [encode] *)

Local Abbreviation embedding_of := (embedding_of sha256_hexdigest sentence_transformer).
Local Abbreviation encode_batch := (encode_batch sha256_hexdigest sentence_transformer).
Local Abbreviation check_cache := (check_cache sha256_hexdigest).

Lemma encode_embedding_of es text :
  (encode es text true).1 = embedding_of es text.
Proof.
  unfold EmbeddingService.embedding_of.
  destruct (files es !! _get_cache_path es (_get_cache_key es text))
    as [[v|]|] eqn:Hfile.
  - by rewrite (encode_cached es text v).
  - rewrite encode_miss; [done|]. intros v. by rewrite Hfile.
  - rewrite encode_miss; [done|]. intros v. by rewrite Hfile.
Qed.

Lemma same_arrays_refl es : same_arrays es es.
Proof. by repeat split. Qed.

Lemma same_arrays_trans es1 es2 es3 :
  same_arrays es1 es2 -> same_arrays es2 es3 -> same_arrays es1 es3.
Proof.
  intros (Hm & Hd & Hf) (Hm' & Hd' & Hf').
  repeat split; try congruence.
  - intros H. by apply Hf, Hf'.
  - intros H. by apply Hf', Hf.
Qed.

Lemma same_arrays_embedding_of es es' text :
  same_arrays es es' -> embedding_of es' text = embedding_of es text.
Proof.
  intros (Hm & Hd & Hf). unfold EmbeddingService.embedding_of.
  unfold EmbeddingService._get_cache_key, _get_cache_path. rewrite Hm, Hd.
  set (path := (cache_dir es ++ _)%string).
  specialize (Hf path).
  destruct (files es' !! path) as [[v'|]|] eqn:H';
    destruct (files es !! path) as [[v|]|] eqn:H; try done.
  - destruct (Hf v') as [Hv _]. specialize (Hv eq_refl). congruence.
  - destruct (Hf v') as [Hv _]. by specialize (Hv eq_refl).
  - destruct (Hf v') as [Hv _]. by specialize (Hv eq_refl).
  - destruct (Hf v) as [_ Hv]. by specialize (Hv eq_refl).
  - destruct (Hf v) as [_ Hv]. by specialize (Hv eq_refl).
Qed.

Lemma load_from_cache_spec es text :
  let r := _load_from_cache es (_get_cache_key es text) in
  same_arrays es r.2 /\
  match r.1 with
  | Some v => v = embedding_of es text
  | None => sentence_transformer (model_name es) text = embedding_of es text
  end.
Proof.
  unfold _load_from_cache, EmbeddingService.embedding_of.
  destruct (files es !! _get_cache_path es (_get_cache_key es text))
    as [[v|]|] eqn:Hfile; simpl.
  - split; [apply same_arrays_refl|done].
  - split; [|done]. repeat split; try done; simpl.
    + intros H. destruct (decide (path = _get_cache_path es (_get_cache_key es text)))
        as [->|Hne].
      * by rewrite lookup_delete_eq in H.
      * by rewrite lookup_delete_ne in H.
    + intros H. destruct (decide (path = _get_cache_path es (_get_cache_key es text)))
        as [->|Hne].
      * congruence.
      * by rewrite lookup_delete_ne.
  - split; [apply same_arrays_refl|done].
Qed.

(** The pairs of the cache loop, with the pairs the model will add, are the
    texts' embeddings under their indices. *)
Lemma check_cache_spec texts : forall es i,
  let r := check_cache es true i texts in
  same_arrays es r.2 /\
  r.1.1.1 ++ zip r.1.2 (map (sentence_transformer (model_name es)) r.1.1.2)
    ≡ₚ imap (fun k text => ((i + k)%nat, embedding_of es text)) texts.
Proof.
  induction texts as [|text texts IH]; intros es i.
  - simpl. split; [apply same_arrays_refl|done].
  - cbn [EmbeddingService.check_cache].
    destruct (load_from_cache_spec es text) as [Hsame Hval].
    destruct (_load_from_cache es (_get_cache_key es text)) as [cached es1].
    simpl in Hsame, Hval.
    destruct (IH es1 (S i)) as [Hsame' Hperm].
    destruct (check_cache es1 true (S i) texts)
      as [[[embeddings tte] idxs] es2].
    cbn [fst snd] in Hsame', Hperm.
    assert (Hrest : imap (fun k t => ((S i + k)%nat, embedding_of es1 t)) texts
                    = imap ((fun k t => ((i + k)%nat, embedding_of es t)) ∘ S) texts).
    { apply imap_ext. intros k t _. simpl.
      rewrite (same_arrays_embedding_of es es1) by done.
      f_equal. lia. }
    rewrite Hrest in Hperm.
    assert (Hname : model_name es1 = model_name es) by apply Hsame.
    rewrite Hname in Hperm.
    rewrite imap_cons, Nat.add_0_r.
    destruct cached as [v|]; simpl.
    + split; [by eapply same_arrays_trans|].
      rewrite Hval. by constructor.
    + split; [by eapply same_arrays_trans|].
      rewrite <- Permutation_middle, Hval. by constructor.
Qed.

Lemma insert_by_index_perm p l : insert_by_index p l ≡ₚ p :: l.
Proof.
  induction l as [|q l IH]; simpl; [done|].
  destruct (q.1 <? p.1)%nat; [|done].
  rewrite IH. apply Permutation_swap.
Qed.

Lemma sort_by_index_perm l : sort_by_index l ≡ₚ l.
Proof.
  induction l as [|p l IH]; [done|].
  unfold sort_by_index in *. simpl. by rewrite insert_by_index_perm, IH.
Qed.

Lemma insert_by_index_sorted p l :
  StronglySorted le_index l -> StronglySorted le_index (insert_by_index p l).
Proof.
  induction 1 as [|q l Hsorted IH Hq]; simpl.
  - repeat constructor.
  - destruct (Nat.ltb_spec q.1 p.1) as [Hlt|Hge].
    + constructor; [exact IH|].
      rewrite insert_by_index_perm. constructor; [unfold le_index; lia|done].
    + constructor; [by constructor|].
      constructor; [done|].
      eapply Forall_impl; [exact Hq|]. unfold le_index. intros x Hx. lia.
Qed.

Lemma sort_by_index_sorted l : StronglySorted le_index (sort_by_index l).
Proof.
  induction l as [|p l IH]; [constructor|].
  unfold sort_by_index. simpl. by apply insert_by_index_sorted.
Qed.

Lemma imap_index_sorted {A} (f : A -> embedding) (l : list A) : forall i,
  StronglySorted le_index (imap (fun k x => ((i + k)%nat, f x)) l) /\
  Forall (fun p => (i <= p.1)%nat) (imap (fun k x => ((i + k)%nat, f x)) l) /\
  NoDup (map fst (imap (fun k x => ((i + k)%nat, f x)) l)).
Proof.
  induction l as [|x l IH]; intros i.
  - simpl. repeat split; constructor.
  - rewrite imap_cons, Nat.add_0_r.
    assert (Heq : imap ((fun k x => ((i + k)%nat, f x)) ∘ S) l
                  = imap (fun k x => ((S i + k)%nat, f x)) l).
    { apply imap_ext. intros k y _. simpl. f_equal. lia. }
    rewrite Heq. destruct (IH (S i)) as (Hs & Hlo & Hnd).
    split; [|split].
    + constructor; [done|].
      eapply Forall_impl; [exact Hlo|]. unfold le_index. simpl. intros; lia.
    + constructor; [simpl; lia|].
      eapply Forall_impl; [exact Hlo|]. simpl. intros; lia.
    + simpl. constructor; [|done].
      intros Hin. apply list_elem_of_In, in_map_iff in Hin as (p & Hp & Hin).
      apply list_elem_of_In in Hin.
      rewrite Forall_forall in Hlo. specialize (Hlo p Hin). lia.
Qed.

(** [encode_batch] returns, in the order of the texts, the embeddings that
    [encode] returns for them one by one. *)
Lemma encode_batch_embeddings es texts :
  (encode_batch es texts true).1 = map (embedding_of es) texts.
Proof.
  unfold EmbeddingService.encode_batch.
  destruct texts as [|text texts]; [done|].
  destruct (check_cache_spec (text :: texts) es 0) as [Hsame Hperm].
  destruct (check_cache es true 0 (text :: texts))
    as [[[embeddings tte] idxs] es1].
  simpl fst in Hperm. simpl snd in Hperm, Hsame.
  assert (Hname : model_name es1 = model_name es) by apply Hsame.
  set (target := imap (fun k t => ((0 + k)%nat, embedding_of es t)) (text :: texts))
    in *.
  assert (Hall : forall embeddings',
             embeddings' ≡ₚ target ->
             map snd (sort_by_index embeddings') = map (embedding_of es) (text :: texts)).
  { intros embeddings' Hp.
    destruct (imap_index_sorted (embedding_of es) (text :: texts) 0%nat)
      as (Hsorted & _ & Hnd). fold target in Hsorted, Hnd.
    assert (Heq : sort_by_index embeddings' = target).
    { apply (StronglySorted_unique_strong le_index).
      - intros p q Hp' Hq Hpq Hqp. unfold le_index in *.
        rewrite sort_by_index_perm, Hp in Hp'.
        assert (Hfst : p.1 = q.1) by lia.
        apply list_elem_of_lookup in Hp' as [a Ha].
        apply list_elem_of_lookup in Hq as [b Hb].
        assert (a = b).
        { eapply NoDup_lookup; [exact Hnd| |].
          - rewrite list_lookup_fmap, Ha. reflexivity.
          - rewrite list_lookup_fmap, Hb. simpl. by rewrite Hfst. }
        subst. congruence.
      - apply sort_by_index_sorted.
      - exact Hsorted.
      - by rewrite sort_by_index_perm. }
    rewrite Heq. unfold target.
    clear. generalize 0%nat. induction (text :: texts) as [|x l IH]; intros i;
      [done|].
    rewrite imap_cons. simpl. f_equal.
    rewrite <- (IH (S i)). f_equal. apply imap_ext. intros k y _. simpl.
    f_equal. lia. }
  destruct tte as [|t0 tte].
  - cbn [fst]. apply Hall. cbn [map] in Hperm.
    by rewrite zip_nil_r, app_nil_r in Hperm.
  - cbn [fst]. apply Hall. by rewrite Hname.
Qed.

(** [encode_batch] returns one embedding for each text. *)
Lemma encode_batch_length es texts :
  length (encode_batch es texts true).1 = length texts.
Proof. by rewrite encode_batch_embeddings, length_map. Qed.

End Model.



Section Batches.
Variable sha256_hexdigest : string -> string.
Variable sentence_transformer : string -> string -> embedding.

Local Abbreviation encode := (encode sha256_hexdigest sentence_transformer).
Local Abbreviation encode_batch := (encode_batch sha256_hexdigest sentence_transformer).
Local Abbreviation check_cache := (check_cache sha256_hexdigest).
Local Abbreviation _get_cache_key := (_get_cache_key sha256_hexdigest).
Local Abbreviation is_cached := (is_cached sha256_hexdigest).

(** X14. [encode_batch] keeps the order of its texts and agrees with
    [encode]: it returns one embedding per text, and the embedding at each
    position is the one that [encode] returns for the text at that position
    in the same state of the cache. *)
Theorem encode_batch_agrees_with_encode es (texts : list string) :
  (encode_batch es texts true).1 = map (fun text => (encode es text true).1) texts /\
  length (encode_batch es texts true).1 = length texts.
Proof.
  split.
  - rewrite encode_batch_embeddings. apply map_ext. intros text.
    symmetry. apply encode_embedding_of.
  - apply encode_batch_length.
Qed.

Lemma same_arrays_is_cached es es' text :
  same_arrays es es' -> is_cached es' text = is_cached es text.
Proof.
  intros (Hname & Hdir & Hfiles). unfold EmbeddingService.is_cached.
  unfold EmbeddingService._get_cache_key, _get_cache_path. rewrite Hname, Hdir.
  set (path := (cache_dir es ++ _)%string).
  destruct (files es' !! path) as [[v|]|] eqn:H'.
  - apply Hfiles in H'. by rewrite H'.
  - destruct (files es !! path) as [[v|]|] eqn:H; try done.
    apply Hfiles in H. congruence.
  - destruct (files es !! path) as [[v|]|] eqn:H; try done.
    apply Hfiles in H. congruence.
Qed.

Lemma is_cached_true es text :
  is_cached es text = true <->
  exists v, files es !! _get_cache_path es (_get_cache_key es text) = Some (Npy v).
Proof.
  unfold EmbeddingService.is_cached.
  destruct (files es !! _) as [[v|]|]; split; try done; eauto.
  - by intros [v H].
  - by intros [v H].
Qed.

Lemma load_from_cache_counters es text :
  let r := _load_from_cache es (_get_cache_key es text) in
  model_calls r.2 = model_calls es /\
  save_succeeds r.2 = save_succeeds es /\
  is_cached es text = match r.1 with Some _ => true | None => false end.
Proof.
  unfold _load_from_cache, EmbeddingService.is_cached.
  by destruct (files es !! _get_cache_path es (_get_cache_key es text)) as [[v|]|].
Qed.

Lemma load_from_cache_same_arrays es text :
  same_arrays es (_load_from_cache es (_get_cache_key es text)).2.
Proof.
  unfold _load_from_cache.
  destruct (files es !! _get_cache_path es (_get_cache_key es text))
    as [[v|]|] eqn:Hfile; simpl; try apply same_arrays_refl.
  repeat split; try done; simpl.
  - intros H. destruct (decide (path = _get_cache_path es (_get_cache_key es text)))
      as [->|Hne].
    + by rewrite lookup_delete_eq in H.
    + by rewrite lookup_delete_ne in H.
  - intros H. destruct (decide (path = _get_cache_path es (_get_cache_key es text)))
      as [->|Hne].
    + congruence.
    + by rewrite lookup_delete_ne.
Qed.

Lemma check_cache_same_arrays texts : forall es i,
  same_arrays es (check_cache es true i texts).2.
Proof.
  induction texts as [|text texts IH]; intros es i; [apply same_arrays_refl|].
  cbn [EmbeddingService.check_cache].
  pose proof (load_from_cache_same_arrays es text) as Hsame.
  destruct (_load_from_cache es (_get_cache_key es text)) as [cached es1].
  simpl in Hsame. specialize (IH es1 (S i)).
  destruct (check_cache es1 true (S i) texts) as [[[embeddings tte] idxs] es2].
  cbn [snd] in IH. destruct cached; simpl; by eapply same_arrays_trans.
Qed.

Lemma check_cache_misses texts : forall es i,
  let r := check_cache es true i texts in
  model_calls r.2 = model_calls es /\
  save_succeeds r.2 = save_succeeds es /\
  r.1.1.2 = filter (fun text => is_cached es text = false) texts.
Proof.
  induction texts as [|text texts IH]; intros es i; [done|].
  cbn [EmbeddingService.check_cache].
  pose proof (load_from_cache_same_arrays es text) as Hsame.
  destruct (load_from_cache_counters es text) as (Hmc & Hss & Hc).
  destruct (_load_from_cache es (_get_cache_key es text)) as [cached es1].
  simpl in Hsame, Hmc, Hss, Hc.
  destruct (IH es1 (S i)) as (Hmc' & Hss' & Hmiss).
  destruct (check_cache es1 true (S i) texts) as [[[embeddings tte] idxs] es2].
  cbn [fst snd] in Hmc', Hss', Hmiss.
  assert (Hrest : filter (fun t => is_cached es1 t = false) texts
                  = filter (fun t => is_cached es t = false) texts).
  { apply list_filter_iff. intros t. by rewrite (same_arrays_is_cached es es1). }
  rewrite Hrest in Hmiss.
  rewrite filter_cons.
  destruct cached as [v|]; simpl.
  - split; [congruence|]. split; [congruence|].
    rewrite decide_False by (rewrite Hc; done). exact Hmiss.
  - split; [congruence|]. split; [congruence|].
    rewrite decide_True by done. by rewrite Hmiss.
Qed.

Lemma save_to_cache_settings e key v :
  model_calls (_save_to_cache e key v) = model_calls e /\
  save_succeeds (_save_to_cache e key v) = save_succeeds e /\
  model_name (_save_to_cache e key v) = model_name e /\
  cache_dir (_save_to_cache e key v) = cache_dir e.
Proof. unfold _save_to_cache. by destruct (save_succeeds e _). Qed.

Lemma is_cached_settings e e' text :
  model_name e' = model_name e -> cache_dir e' = cache_dir e ->
  _get_cache_path e' (_get_cache_key e' text) = _get_cache_path e (_get_cache_key e text).
Proof.
  intros Hn Hd. unfold EmbeddingService._get_cache_key, _get_cache_path.
  by rewrite Hn, Hd.
Qed.

Lemma save_to_cache_cached e text' v text :
  is_cached e text = true ->
  is_cached (_save_to_cache e (_get_cache_key e text') v) text = true.
Proof.
  destruct (save_to_cache_settings e (_get_cache_key e text') v) as (_ & _ & Hn & Hd).
  rewrite !is_cached_true, (is_cached_settings e _ text Hn Hd).
  intros [w Hw]. unfold _save_to_cache.
  destruct (save_succeeds e _); [|by exists w]. simpl.
  destruct (decide (_get_cache_path e (_get_cache_key e text') =
                    _get_cache_path e (_get_cache_key e text))) as [Heq|Hne].
  - rewrite Heq, lookup_insert_eq. by exists v.
  - rewrite lookup_insert_ne by done. by exists w.
Qed.

Lemma save_to_cache_saved e text v :
  save_succeeds e (_get_cache_path e (_get_cache_key e text)) = true ->
  is_cached (_save_to_cache e (_get_cache_key e text) v) text = true.
Proof.
  intros Hs.
  destruct (save_to_cache_settings e (_get_cache_key e text) v) as (_ & _ & Hn & Hd).
  rewrite is_cached_true, (is_cached_settings e _ text Hn Hd).
  unfold _save_to_cache. rewrite Hs. simpl. rewrite lookup_insert_eq. by exists v.
Qed.

Lemma fold_save_props (l : list (string * embedding)) : forall e,
  let e' := fold_left (fun e tv => _save_to_cache e (_get_cache_key e tv.1) tv.2) l e in
  model_calls e' = model_calls e /\
  save_succeeds e' = save_succeeds e /\
  model_name e' = model_name e /\
  cache_dir e' = cache_dir e /\
  (forall text, is_cached e text = true -> is_cached e' text = true) /\
  (forall tv, tv ∈ l ->
     save_succeeds e (_get_cache_path e (_get_cache_key e tv.1)) = true ->
     is_cached e' tv.1 = true).
Proof.
  induction l as [|tv l IH]; intros e.
  - simpl. repeat split; try done. intros tv Hin. by apply elem_of_nil in Hin.
  - simpl.
    destruct (save_to_cache_settings e (_get_cache_key e tv.1) tv.2)
      as (Hmc & Hss & Hn & Hd).
    destruct (IH (_save_to_cache e (_get_cache_key e tv.1) tv.2))
      as (Hmc' & Hss' & Hn' & Hd' & Hkeep & Hnew).
    split; [congruence|]. split; [congruence|]. split; [congruence|].
    split; [congruence|]. split.
    + intros text Hc. by apply Hkeep, save_to_cache_cached.
    + intros tv' Hin Hs. apply elem_of_cons in Hin as [->|Hin].
      * by apply Hkeep, save_to_cache_saved.
      * apply Hnew; [exact Hin|].
        by rewrite Hss, (is_cached_settings e _ _ Hn Hd).
Qed.

Lemma filter_nil_forallb (es : t) (texts : list string) :
  filter (fun text => is_cached es text = false) texts = [] <->
  forallb (is_cached es) texts = true.
Proof.
  induction texts as [|text texts IH]; [done|].
  rewrite filter_cons. simpl.
  destruct (is_cached es text) eqn:Hc.
  - rewrite decide_False by done. simpl. exact IH.
  - rewrite decide_True by done. simpl. split; discriminate.
Qed.

Lemma encode_batch_state es (texts : list string) :
  let es' := (encode_batch es texts true).2 in
  model_calls es' =
    (if forallb (is_cached es) texts then model_calls es else S (model_calls es)) /\
  save_succeeds es' = save_succeeds es /\
  model_name es' = model_name es /\
  cache_dir es' = cache_dir es /\
  (forall text, is_cached es text = true -> is_cached es' text = true) /\
  (forall text, text ∈ texts ->
     save_succeeds es (_get_cache_path es (_get_cache_key es text)) = true ->
     is_cached es' text = true).
Proof.
  destruct texts as [|t0 texts0]; [simpl; repeat split; try done;
    intros text Hin; by apply elem_of_nil in Hin|].
  set (texts := t0 :: texts0).
  set (fb := forallb (is_cached es) texts).
  unfold EmbeddingService.encode_batch.
  change (match texts with [] => ([], es) | _ :: _ => ?x end) with x.
  pose proof (check_cache_same_arrays texts es 0) as Hsame.
  destruct (check_cache_misses texts es 0) as (Hmc & Hss & Hmiss).
  destruct (check_cache es true 0 texts) as [[[embeddings tte] idxs] es1].
  cbn [fst snd] in Hsame, Hmc, Hss, Hmiss.
  destruct Hsame as (Hn & Hd & Hfiles).
  assert (Hkeep1 : forall text, is_cached es1 text = is_cached es text).
  { intros text. by apply same_arrays_is_cached. }
  destruct tte as [|t tte'].
  - simpl. symmetry in Hmiss. pose proof Hmiss as Hall.
    apply filter_nil_forallb in Hall. unfold fb. rewrite Hall.
    split; [exact Hmc|]. split; [exact Hss|]. split; [exact Hn|]. split; [exact Hd|].
    split.
    + intros text. by rewrite Hkeep1.
    + intros text Hin _. rewrite Hkeep1.
      rewrite forallb_forall in Hall. apply Hall.
      by apply list_elem_of_In.
  - cbv beta iota. set (tte := t :: tte') in *.
    assert (Hnot : forallb (is_cached es) texts = false).
    { destruct (forallb (is_cached es) texts) eqn:Hall; [|done].
      apply filter_nil_forallb in Hall. rewrite <- Hmiss in Hall.
      unfold tte in Hall. discriminate. }
    unfold fb. rewrite Hnot.
    set (new := map (sentence_transformer (model_name es1)) tte).
    destruct (fold_save_props (zip tte new) (count_model_call es1))
      as (Hmc' & Hss' & Hn' & Hd' & Hkeep & Hnew).
    cbn [snd].
    split; [rewrite Hmc'; simpl; congruence|].
    split; [rewrite Hss'; simpl; congruence|].
    split; [rewrite Hn'; simpl; congruence|].
    split; [rewrite Hd'; simpl; congruence|].
    split.
    + intros text Hc. apply Hkeep. rewrite <- Hkeep1 in Hc. exact Hc.
    + intros text Hin Hs.
      destruct (is_cached es text) eqn:Hc.
      * apply Hkeep. by rewrite <- Hkeep1 in Hc.
      * assert (Htv : (text, sentence_transformer (model_name es1) text) ∈ zip tte new).
        { assert (Hmem : text ∈ tte).
          { rewrite Hmiss. by apply list_elem_of_filter. }
          unfold new. clear -Hmem.
          induction tte as [|x tte IH]; [by apply elem_of_nil in Hmem|].
          simpl. apply elem_of_cons in Hmem as [->|Hmem]; [left|right; auto]. }
        apply (Hnew _ Htv). simpl.
        change (save_succeeds (count_model_call es1)) with (save_succeeds es1).
        rewrite Hss.
        change (_get_cache_path (count_model_call es1)
                  (_get_cache_key (count_model_call es1) text))
          with (_get_cache_path es1 (_get_cache_key es1 text)).
        by rewrite (is_cached_settings es es1 text Hn Hd).
Qed.

(** X15. [encode_batch] runs the model at most once: not at all when every
    text has a cache file that loads (and then, as for an empty list of
    texts, nothing is computed), and exactly once, for all the other texts
    together, otherwise. *)
Theorem encode_batch_runs_the_model_at_most_once es (texts : list string) :
  model_calls (encode_batch es texts true).2 =
    (if forallb (is_cached es) texts then model_calls es else S (model_calls es)) /\
  (texts = [] -> encode_batch es texts true = ([], es)).
Proof.
  split; [apply encode_batch_state|]. by intros ->.
Qed.

(** X16. [encode_batch] fills the cache: when the files of its texts can be
    written, every text of the batch has a loadable cache file afterwards,
    so that [encode] then serves it without running the model and without
    changing the service, and a second [encode_batch] of the same texts runs
    no model either. *)
Theorem encode_batch_fills_the_cache es (texts : list string) :
  (forall text, text ∈ texts ->
     save_succeeds es (_get_cache_path es (_get_cache_key es text)) = true) ->
  let es' := (encode_batch es texts true).2 in
  (forall text, text ∈ texts ->
     is_cached es' text = true /\ exists v, encode es' text true = (v, es')) /\
  model_calls (encode_batch es' texts true).2 = model_calls es'.
Proof.
  intros Hsave es'.
  destruct (encode_batch_state es texts) as (_ & _ & _ & _ & _ & Hnew).
  fold es' in Hnew.
  assert (Hall : forall text, text ∈ texts -> is_cached es' text = true).
  { intros text Hin. apply Hnew; [exact Hin|]. by apply Hsave. }
  split.
  - intros text Hin. split; [by apply Hall|].
    destruct (proj1 (is_cached_true es' text) (Hall text Hin)) as [v Hv].
    exists v. by apply encode_cached.
  - destruct (encode_batch_state es' texts) as (Hmc & _). rewrite Hmc.
    assert (Hfb : forallb (is_cached es') texts = true).
    { apply forallb_forall. intros text Hin. apply Hall. by apply list_elem_of_In. }
    by rewrite Hfb.
Qed.

End Batches.

Lemma encode_batch_runs_the_model_at_most_once_witness :
  let es := mk_EmbeddingService "all-MiniLM-L6-v2" ".embeddings_cache" ∅
              (fun _ => true) 0 in
  encode_batch (fun s => s) (fun _ _ => [1; 0]) es [] true = ([], es).
Proof.
  intros es.
  exact (proj2 (encode_batch_runs_the_model_at_most_once
                  (fun s => s) (fun _ _ => [1; 0]) es []) eq_refl).
Defined.

Lemma encode_batch_fills_the_cache_witness :
  let es := mk_EmbeddingService "all-MiniLM-L6-v2" ".embeddings_cache" ∅
              (fun _ => true) 0 in
  let texts := ["first text"; "second text"]%string in
  let es' := (encode_batch (fun s => s) (fun _ _ => [1; 0]) es texts true).2 in
  model_calls (encode_batch (fun s => s) (fun _ _ => [1; 0]) es' texts true).2
  = model_calls es'.
Proof.
  intros es texts es'.
  refine (proj2 (encode_batch_fills_the_cache
                   (fun s => s) (fun _ _ => [1; 0]) es texts _)).
  intros text _. reflexivity.
Defined.

(** *** The ranking of [find_most_similar] *)

Lemma StronglySorted_sublist {A} (R : A -> A -> Prop) (l1 l2 : list A) :
  l1 `sublist_of` l2 -> StronglySorted R l2 -> StronglySorted R l1.
Proof.
  induction 1 as [|x l1 l2 Hsub IH|x l1 l2 Hsub IH]; intros Hs.
  - constructor.
  - apply StronglySorted_inv in Hs as [Hs Hall]. constructor; [by apply IH|].
    rewrite Forall_forall in Hall. apply Forall_forall. intros y Hy.
    apply Hall. by eapply elem_of_sublist.
  - apply StronglySorted_inv in Hs as [Hs _]. by apply IH.
Qed.

Lemma score_candidates_indices qn threshold cands : forall i sims,
  score_candidates qn threshold i cands = Ok sims ->
  StronglySorted lt (map fst sims) /\
  Forall (fun j => (i <= j < i + length cands)%nat) (map fst sims).
Proof.
  induction cands as [|c cands IH]; intros i sims Hs.
  - simpl in Hs. injection Hs as <-. split; constructor.
  - rewrite score_candidates_cons in Hs.
    apply bind_ok in Hs as (r & Hr & Hs).
    apply bind_ok in Hs as (rest & Hrest & Hs).
    injection Hs as <-.
    destruct (IH _ _ Hrest) as [Hsorted Hrange].
    assert (Hrange' : Forall (fun j => (i <= j < i + length (c :: cands))%nat)
                             (map fst rest)).
    { eapply Forall_impl; [exact Hrange|]. simpl. intros j Hj. lia. }
    destruct r as [[j s]|]; [|done].
    assert (j = i) as ->.
    { unfold score_candidate in Hr. destruct (Req_dec_T (norm c) 0); [done|].
      apply bind_ok in Hr as (c' & _ & Hr).
      apply bind_ok in Hr as (d & _ & Hr).
      apply bind_ok in Hr as (sim & _ & Hr).
      destruct (Rge_dec sim threshold); by injection Hr. }
    simpl. split.
    + constructor; [exact Hsorted|].
      eapply Forall_impl; [exact Hrange|]. simpl. intros j Hj. lia.
    + constructor; [simpl; lia|exact Hrange'].
Qed.

Lemma insert_desc_ranked p l :
  StronglySorted ranked l ->
  Forall (fun x => (fst p < fst x)%nat) l ->
  StronglySorted ranked (insert_desc p l).
Proof.
  induction l as [|q l IH]; intros Hs Hidx.
  - simpl. repeat constructor.
  - apply StronglySorted_inv in Hs as [Hs Hq].
    apply Forall_cons in Hidx as [Hpq Hidx].
    simpl. destruct (Rlt_dec (snd p) (snd q)) as [Hlt|Hge].
    + constructor; [by apply IH|].
      apply Forall_forall. intros x Hx.
      rewrite insert_desc_perm in Hx. apply elem_of_cons in Hx as [->|Hx].
      * by left.
      * rewrite Forall_forall in Hq. by apply Hq.
    + constructor; [by constructor|].
      assert (Hp_q : ranked p q).
      { unfold ranked. destruct (Rtotal_order (snd q) (snd p)) as [H|[H|H]];
          [by left|by right|lra]. }
      constructor; [exact Hp_q|].
      apply Forall_forall. intros x Hx.
      rewrite Forall_forall in Hq, Hidx.
      specialize (Hq x Hx). specialize (Hidx x Hx).
      unfold ranked in *.
      destruct Hq as [Hq|[Hq _]], Hp_q as [Hp|[Hp _]];
        try (left; lra); right; split; [lra|exact Hidx].
Qed.

Lemma sort_desc_ranked l :
  StronglySorted lt (map fst l) -> StronglySorted ranked (sort_desc l).
Proof.
  induction l as [|p l IH]; intros Hs; [constructor|].
  simpl in Hs. apply StronglySorted_inv in Hs as [Hs Hp].
  simpl. apply insert_desc_ranked; [by apply IH|].
  apply Forall_forall. intros x Hx. unfold sort_desc in Hx.
  fold (sort_desc l) in Hx. rewrite sort_desc_perm in Hx.
  rewrite Forall_forall in Hp. apply Hp. by apply list_elem_of_fmap_2.
Qed.

Lemma StronglySorted_lt_NoDup (l : list nat) : StronglySorted lt l -> NoDup l.
Proof.
  induction 1 as [|x l Hs IH Hall]; constructor; [|exact IH].
  intros Hin. rewrite Forall_forall in Hall. specialize (Hall x Hin). lia.
Qed.

(** X17. The result of [find_most_similar] is ranked: by descending
    similarity, candidates of equal similarity in the order of their
    indices; every index is a valid index into the candidates and occurs
    once; and with [top_k = k >= 0] there are at most [k] results. *)
Theorem find_most_similar_is_ranked q cands threshold top_k matches :
  find_most_similar q cands threshold top_k = Ok matches ->
  StronglySorted ranked matches /\
  NoDup (map fst matches) /\
  Forall (fun p => (fst p < length cands)%nat) matches /\
  (forall k, top_k = Some k -> (0 <= k)%Z -> (length matches <= Z.to_nat k)%nat).
Proof.
  intros Hfind.
  destruct (decide (cands = [])) as [->|Hne].
  { unfold find_most_similar in Hfind. simpl in Hfind. injection Hfind as <-.
    repeat split; try constructor. intros k _ _. simpl. lia. }
  destruct (Req_dec_T (norm q) 0) as [Hz|Hnz].
  { rewrite find_most_similar_zero_query in Hfind by done. injection Hfind as <-.
    repeat split; try constructor. intros k _ _. simpl. lia. }
  rewrite find_most_similar_unfold in Hfind by done.
  apply bind_ok in Hfind as (sims & Hsims & Hfind). injection Hfind as <-.
  destruct (score_candidates_indices _ _ _ _ _ Hsims) as [Hsorted Hrange].
  assert (Hsub : match top_k with
                 | Some k => slice_to k (sort_desc sims)
                 | None => sort_desc sims
                 end `sublist_of` sort_desc sims).
  { destruct top_k; [apply slice_to_sublist|done]. }
  split; [|split; [|split]].
  - eapply StronglySorted_sublist; [exact Hsub|]. by apply sort_desc_ranked.
  - eapply sublist_NoDup; [|apply fmap_sublist; exact Hsub].
    rewrite sort_desc_perm. by apply StronglySorted_lt_NoDup.
  - apply Forall_forall. intros p Hp.
    apply (elem_of_sublist _ _ _ Hp) in Hsub as Hp2. clear Hp. rename Hp2 into Hp. rewrite sort_desc_perm in Hp.
    rewrite Forall_forall in Hrange.
    specialize (Hrange (fst p) (list_elem_of_fmap_2 fst _ _ Hp)). simpl in Hrange. lia.
  - intros k -> Hk. unfold slice_to.
    destruct (Z.leb_spec 0 k) as [_|Hneg]; [|lia].
    rewrite length_take. lia.
Qed.

(** Two candidates on the axes of the plane, for the examples. *)
Lemma norm_first_axis : norm [1; 0] = 1.
Proof.
  unfold norm. simpl. replace (1 * 1 + (0 * 0 + 0)) with 1 by ring. apply sqrt_1.
Qed.

Lemma norm_second_axis : norm [0; 1] = 1.
Proof.
  unfold norm. simpl. replace (0 * 0 + (1 * 1 + 0)) with 1 by ring. apply sqrt_1.
Qed.

Lemma cosine_same_axis : (cosine [1; 0] [1; 0] + 1) / 2 = 1.
Proof. unfold cosine. rewrite norm_first_axis. simpl. lra. Qed.

Lemma cosine_other_axis : (cosine [1; 0] [0; 1] + 1) / 2 = 1 / 2.
Proof. unfold cosine. rewrite norm_first_axis, norm_second_axis. simpl. lra. Qed.

Lemma find_most_similar_axes :
  find_most_similar [1; 0] [[0; 1]; [1; 0]] (1 / 2) None =
  Ok [(1%nat, 1); (0%nat, 1 / 2)].
Proof.
  assert (Hnorm : norm [1; 0] <> 0) by (rewrite norm_first_axis; lra).
  rewrite find_most_similar_unfold by done.
  rewrite !score_candidates_cons, !score_candidate_spec by done.
  rewrite norm_first_axis, norm_second_axis.
  destruct (Req_dec_T 1 0) as [H|_]; [lra|].
  rewrite !decide_True by done.
  rewrite cosine_same_axis, cosine_other_axis.
  destruct (Rge_dec (1 / 2) (1 / 2)) as [_|H]; [|lra].
  destruct (Rge_dec 1 (1 / 2)) as [_|H]; [|lra].
  simpl. destruct (Rlt_dec (1 / 2) 1) as [_|H]; [reflexivity|lra].
Qed.

Lemma find_most_similar_is_ranked_witness :
  StronglySorted ranked [(1%nat, 1); (0%nat, 1 / 2)] /\
  NoDup (map fst [(1%nat, 1); (0%nat, 1 / 2)]).
Proof.
  destruct (find_most_similar_is_ranked [1; 0] [[0; 1]; [1; 0]] (1 / 2) None
              [(1%nat, 1); (0%nat, 1 / 2)] find_most_similar_axes)
    as (Hsorted & Hnodup & _).
  split; [exact Hsorted|exact Hnodup].
Defined.








End EmbeddingServiceFacts.

(** ** Properties of deduplication/service.py *)

Module DeduplicationServiceFacts.
Import Datetime Models EmbeddingService EmbeddingServiceFacts DeduplicationService.

Lemma mapM_Forall2 {A B} (f : A -> result B) (l : list A) (rs : list B) :
  mapM f l = Ok rs -> Forall2 (fun a r => f a = Ok r) l rs.
Proof.
  revert rs. induction l as [|a l IH]; intros rs Hrun; simpl in Hrun.
  - injection Hrun as <-. constructor.
  - apply bind_ok in Hrun as (b & Hb & Hrun).
    apply bind_ok in Hrun as (bs & Hbs & Heq). injection Heq as <-.
    constructor; [done|]. by apply IH.
Qed.




Section Collaborators.
Variable sha256_hexdigest : string -> string.
Variable sentence_transformer : string -> string -> embedding.
Variable urlparse_netloc : string -> result string.
Variable str_lower : string -> string.

Local Abbreviation check_duplicate :=
  (check_duplicate sha256_hexdigest sentence_transformer urlparse_netloc str_lower).
Local Abbreviation check_batch :=
  (check_batch sha256_hexdigest sentence_transformer urlparse_netloc).
Local Abbreviation find_similar := (find_similar sha256_hexdigest str_lower).
Local Abbreviation load_recent_items_cache :=
  (load_recent_items_cache sha256_hexdigest sentence_transformer urlparse_netloc).
Local Abbreviation combined_text_of_item := (combined_text_of_item urlparse_netloc).
Local Abbreviation encode := (encode sha256_hexdigest sentence_transformer).
Local Abbreviation encode_batch := (encode_batch sha256_hexdigest sentence_transformer).




(** *** The temporal corroboration of a semantic match *)


(** *** The exact checks of [check_batch] *)

Lemma find_most_similar_top_k q cands threshold k :
  find_most_similar q cands threshold (Some k) =
  bind (find_most_similar q cands threshold None)
       (fun sorted => Ok (slice_to k sorted)).
Proof.
  assert (Hnil : slice_to k (@nil (nat * R)) = []).
  { unfold slice_to. destruct (0 <=? k)%Z; apply take_nil. }
  unfold find_most_similar.
  destruct (decide (length cands = 0%nat)); [simpl; by rewrite Hnil|].
  destruct (Req_dec_T (norm q) 0); [simpl; by rewrite Hnil|].
  destruct (np_div_array q (norm q)) as [qn|e]; [|done]. simpl.
  by destruct (score_candidates qn threshold 0 cands).
Qed.

(** Where the exact-title stage finds nothing, one turn of the batch loop on
    an item and the embedding [encode] has for it gives the verdict of
    [check_duplicate]. *)
Lemma check_batch_item_agrees svc db now news_item es' v :
  let svc1 := load_recent_items_cache svc db now in
  find_similar db (url news_item) (title news_item) (content news_item) = Ok None ->
  check_batch_item (set_embedding_service svc1 es') db
    (news_item,
     embedding_of sha256_hexdigest sentence_transformer (embedding_service svc1)
       (combined_text_of_item news_item)) = Ok v ->
  exists svc'', check_duplicate svc db now news_item = Ok (v, svc'').
Proof.
  intros svc1 Htitle Hrun.
  unfold DeduplicationService.check_duplicate. fold svc1.
  unfold check_batch_item, _check_exact_matches in Hrun.
  apply bind_ok in Hrun as (exact & Hexact & Hrun).
  apply bind_ok in Hexact as (existing & Hurl & Hexact).
  rewrite Hurl. cbn [bind].
  destruct existing as [row|].
  { injection Hexact as <-. simpl in Hrun. injection Hrun as <-. eauto. }
  injection Hexact as <-. cbn [is_duplicate no_match] in Hrun.
  rewrite Htitle. cbn [bind].
  cbn [_items_cache set_embedding_service similarity_threshold] in Hrun.
  destruct (_items_cache svc1) as [|p cache] eqn:Hcache.
  { injection Hrun as <-. eauto. }
  pose proof (encode_embedding_of sha256_hexdigest sentence_transformer
                (embedding_service svc1) (combined_text_of_item news_item)) as Henc.
  destruct (encode _ _ true) as [item_embedding es]. simpl in Henc. subst.
  cbn [_items_cache set_embedding_service similarity_threshold].
  rewrite Hcache.
  apply bind_ok in Hrun as (cands & -> & Hrun). cbn [bind].
  rewrite find_most_similar_top_k in Hrun. rewrite find_most_similar_top_k.
  apply bind_ok in Hrun as (sims & Hsims & Hrun).
  apply bind_ok in Hsims as (sorted & -> & Hslice). cbn [bind].
  injection Hslice as <-.
  destruct sorted as [|[best_idx best_score] rest].
  { simpl in Hrun. injection Hrun as <-. eauto. }
  change (slice_to 1 ((best_idx, best_score) :: rest))
    with [(best_idx, best_score)] in Hrun.
  change (slice_to 5 ((best_idx, best_score) :: rest))
    with ((best_idx, best_score) :: take 4 rest).
  cbv iota beta. cbv iota beta in Hrun.
  destruct ((p :: cache) !! best_idx) as [[best_item e]|]; [|done].
  apply bind_ok in Hrun as (d & -> & Hrun). cbn [bind].
  destruct (Qle_bool (Qabs (total_seconds d)) (7 * 24 * 3600)) eqn:Hle.
  - injection Hrun as <-. apply Qle_bool_iff in Hle.
    destruct (Qlt_le_dec (7 * 24 * 3600) (Qabs (total_seconds d))) as [Hlt|_];
      [|eauto].
    exfalso. apply (Qlt_not_le _ _ Hlt Hle).
  - injection Hrun as <-.
    destruct (Qlt_le_dec (7 * 24 * 3600) (Qabs (total_seconds d))) as [_|Hle'];
      [eauto|].
    apply Qle_bool_iff in Hle'. congruence.
Qed.

(** Away from the exact-title stage the two operations agree: when
    [check_batch] returns, each of its verdicts is the verdict
    [check_duplicate] returns for the item at that position. *)
Lemma check_batch_agrees_without_exact_title svc db now items vs svc' :
  Forall (fun item => find_similar db (url item) (title item) (content item)
                      = Ok None) items ->
  check_batch svc db now items = Ok (vs, svc') ->
  Forall2 (fun item v =>
             exists svc'', check_duplicate svc db now item = Ok (v, svc''))
          items vs.
Proof.
  intros Htitle. unfold DeduplicationService.check_batch.
  pose proof (encode_batch_embeddings sha256_hexdigest sentence_transformer
                (embedding_service (load_recent_items_cache svc db now))
                (map combined_text_of_item items)) as Hembs.
  destruct (encode_batch _ _ true) as [new_embeddings es]. simpl in Hembs.
  subst new_embeddings.
  intros Hrun. apply bind_ok in Hrun as (results & Hresults & Heq).
  injection Heq as <- _.
  apply mapM_Forall2 in Hresults.
  revert results Hresults.
  induction Htitle as [|item items Hitem _ IH]; intros results Hresults.
  - simpl in Hresults. inversion Hresults. constructor.
  - simpl in Hresults. inversion Hresults as [|? v ? vs' Hv Hvs]; subst.
    constructor; [|by apply IH].
    by eapply check_batch_item_agrees.
Qed.

(** No verdict of [check_batch] is an "exact_title" one: the batch path has
    no second stage. *)
Lemma check_batch_never_exact_title svc db now items vs svc' :
  check_batch svc db now items = Ok (vs, svc') ->
  Forall (fun v => match_type v <> "exact_title"%string) vs.
Proof.
  unfold DeduplicationService.check_batch.
  destruct (encode_batch _ _ true) as [new_embeddings es].
  intros Hrun. apply bind_ok in Hrun as (results & Hresults & Heq).
  injection Heq as <- _.
  apply mapM_Forall2 in Hresults.
  induction Hresults as [|[item emb] v ps vs' Hp _ IH]; constructor; [|exact IH].
  clear IH. unfold check_batch_item, _check_exact_matches in Hp.
  apply bind_ok in Hp as (exact & Hexact & Hp).
  apply bind_ok in Hexact as (existing & _ & Hexact).
  destruct existing as [row|].
  { injection Hexact as <-. simpl in Hp. by injection Hp as <-. }
  injection Hexact as <-. simpl in Hp.
  destruct (_items_cache _) as [|p cache]; [by injection Hp as <-|].
  apply bind_ok in Hp as (cands & _ & Hp).
  apply bind_ok in Hp as (similar_items & _ & Hp).
  destruct similar_items as [|[best_idx best_score] rest];
    [by injection Hp as <-|].
  destruct (_ !! best_idx) as [[best_item e]|]; [|done].
  apply bind_ok in Hp as (d & _ & Hp).
  destruct (Qle_bool _ _); by injection Hp as <-.
Qed.

(** C1 (what the code does). For a candidate whose URL is not in the store
    but whose title and content hashes are in the exact-match cache,
    [check_duplicate] stops at stage 2 with an "exact_title" verdict, while
    [check_batch], whose [_check_exact_matches] only looks the URL up,
    classifies the same candidate as not a duplicate (here against an empty
    session cache). *)
Theorem check_batch_skips_exact_title svc db now news_item entry :
  _cache_loaded svc = true ->
  _items_cache svc = [] ->
  get_by_url db (url news_item) = Ok None ->
  find_similar db (url news_item) (title news_item) (content news_item)
    = Ok (Some entry) ->
  check_duplicate svc db now news_item =
    Ok ({| is_duplicate := true; original_id := Some (news_item_id entry);
           similarity_score := 1%R; match_type := "exact_title" |}, svc) /\
  exists svc',
    check_batch svc db now [news_item] =
    Ok ([{| is_duplicate := false; original_id := None;
            similarity_score := 0%R; match_type := "none" |}], svc').
Proof.
  intros Hloaded Hcache Hurl Htitle.
  assert (Hload : load_recent_items_cache svc db now = svc).
  { unfold DeduplicationService.load_recent_items_cache. by rewrite Hloaded. }
  split.
  - unfold DeduplicationService.check_duplicate.
    rewrite Hload, Hurl. simpl. rewrite Htitle. reflexivity.
  - unfold DeduplicationService.check_batch. rewrite Hload.
    pose proof (encode_batch_length sha256_hexdigest sentence_transformer
                  (embedding_service svc)
                  (map combined_text_of_item [news_item])) as Hlen.
    destruct (encode_batch _ _ true) as [new_embeddings es].
    simpl in Hlen.
    destruct new_embeddings as [|emb [|emb' embs]]; try done.
    exists (set_embedding_service svc es).
    simpl. unfold _check_exact_matches. rewrite Hurl. simpl.
    rewrite Hcache. reflexivity.
Qed.

End Collaborators.





Lemma check_batch_skips_exact_title_witness :
  let svc := mk_DeduplicationService
               (mk_EmbeddingService "all-MiniLM-L6-v2" ".embeddings_cache" ∅
                  (fun _ => true) 0)
               (85 / 100)%R 30 ∅ [] true in
  let db := mk_Database []
              [mk_DeduplicationCacheDB "https://other.example/story"
                 "breaking news" "same content" "orig-1"] in
  let item := mk_NewsItem "id-2" "https://example.com/story"
                "breaking news" "same content" "Feed"
                (mk_datetime 0 (Some UTC)) in
  check_duplicate (fun x => x) (fun _ _ => [1; 0]%R)
    (fun _ => Ok "example.com"%string) (fun x => x) svc db 0%Z item =
    Ok ({| is_duplicate := true; original_id := Some "orig-1"%string;
           similarity_score := 1%R; match_type := "exact_title" |}, svc) /\
  exists svc',
    check_batch (fun x => x) (fun _ _ => [1; 0]%R)
      (fun _ => Ok "example.com"%string) svc db 0%Z [item] =
    Ok ([{| is_duplicate := false; original_id := None;
            similarity_score := 0%R; match_type := "none" |}], svc').
Proof.
  intros svc db item.
  apply (check_batch_skips_exact_title (fun x => x) (fun _ _ => [1; 0]%R)
           (fun _ => Ok "example.com"%string) (fun x => x) svc db 0%Z item
           (mk_DeduplicationCacheDB "https://other.example/story"
              "breaking news" "same content" "orig-1")); reflexivity.
Defined.

(** *** The recency window *)

Lemma insert_newest_perm row l : insert_newest row l ≡ₚ row :: l.
Proof.
  induction l as [|r l IH]; simpl; [done|].
  destruct (_ <? _)%Z; [|done]. rewrite IH. apply perm_swap.
Qed.

Lemma sort_newest_perm (l : list NewsItemDB) : foldr insert_newest [] l ≡ₚ l.
Proof.
  induction l as [|r l IH]; simpl; [done|]. by rewrite insert_newest_perm, IH.
Qed.

Lemma insert_newest_sorted row l :
  StronglySorted newest_first l -> StronglySorted newest_first (insert_newest row l).
Proof.
  induction l as [|r l IH]; intros Hs; simpl.
  - repeat constructor.
  - apply StronglySorted_inv in Hs as [Hs Hr].
    destruct (Z.ltb_spec (fields (db_published_at row)) (fields (db_published_at r)))
      as [Hlt|Hge].
    + constructor; [by apply IH|].
      apply Forall_forall. intros x Hx. rewrite insert_newest_perm in Hx.
      apply elem_of_cons in Hx as [->|Hx].
      * unfold newest_first. lia.
      * rewrite Forall_forall in Hr. by apply Hr.
    + constructor; [by constructor|].
      constructor; [exact Hge|].
      eapply Forall_impl; [exact Hr|]. unfold newest_first. intros x Hx. lia.
Qed.

Lemma sort_newest_sorted (l : list NewsItemDB) :
  StronglySorted newest_first (foldr insert_newest [] l).
Proof.
  induction l as [|r l IH]; simpl; [constructor|]. by apply insert_newest_sorted.
Qed.

Lemma get_recent_spec db now lookback limit :
  StronglySorted newest_first (get_recent db now lookback limit) /\
  Forall (fun row => row ∈ news_items db /\
                     db_is_duplicate row = false /\
                     (now - days lookback <= fields (db_published_at row))%Z)
         (get_recent db now lookback limit) /\
  (forall n, limit = Some n -> (0 < n)%Z ->
     (length (get_recent db now lookback limit) <= Z.to_nat n)%nat).
Proof.
  unfold get_recent. cbn [minus_delta fields].
  set (rows := filter _ (news_items db)).
  set (ordered := foldr insert_newest [] rows).
  assert (Hsorted : StronglySorted newest_first ordered) by apply sort_newest_sorted.
  assert (Hall : Forall (fun row => row ∈ news_items db /\
                     db_is_duplicate row = false /\
                     (now - days lookback <= fields (db_published_at row))%Z) ordered).
  { apply Forall_forall. intros row Hrow. unfold ordered in Hrow.
    rewrite sort_newest_perm in Hrow. unfold rows in Hrow.
    apply list_elem_of_filter in Hrow as [[Hcut Hdup] Hin]. done. }
  assert (Hsub : match limit with
                 | Some n => if (n =? 0)%Z then ordered else take (Z.to_nat n) ordered
                 | None => ordered
                 end `sublist_of` ordered).
  { destruct limit as [n|]; [|done]. destruct (n =? 0)%Z; [done|apply sublist_take]. }
  split; [|split].
  - eapply StronglySorted_sublist; [exact Hsub|exact Hsorted].
  - apply Forall_forall. intros row Hrow.
    rewrite Forall_forall in Hall. apply Hall. by eapply elem_of_sublist.
  - intros n Hlim Hn. subst limit. destruct (Z.eqb_spec n 0) as [Hz|_]; [lia|].
    rewrite length_take. lia.
Qed.

Lemma zip_map_self {A B} (f : A -> B) (l : list A) :
  zip l (map f l) = map (fun x => (x, f x)) l.
Proof. induction l as [|x l IH]; simpl; [done|]. by rewrite IH. Qed.

Section Session.
Variable sha256_hexdigest : string -> string.
Variable sentence_transformer : string -> string -> embedding.
Variable urlparse_netloc : string -> result string.
Variable str_lower : string -> string.

Local Abbreviation check_duplicate :=
  (check_duplicate sha256_hexdigest sentence_transformer urlparse_netloc str_lower).
Local Abbreviation check_batch :=
  (check_batch sha256_hexdigest sentence_transformer urlparse_netloc).
Local Abbreviation find_similar := (find_similar sha256_hexdigest str_lower).
Local Abbreviation load_recent_items_cache :=
  (load_recent_items_cache sha256_hexdigest sentence_transformer urlparse_netloc).
Local Abbreviation combined_text_of_item := (combined_text_of_item urlparse_netloc).
Local Abbreviation combined_text_of_row := (combined_text_of_row urlparse_netloc).
Local Abbreviation encode := (encode sha256_hexdigest sentence_transformer).
Local Abbreviation encode_batch := (encode_batch sha256_hexdigest sentence_transformer).
Local Abbreviation embedding_of := (embedding_of sha256_hexdigest sentence_transformer).
Local Abbreviation add_to_cache :=
  (add_to_cache sha256_hexdigest sentence_transformer urlparse_netloc).

Lemma load_recent_items_cache_loaded svc db now :
  _cache_loaded svc = true -> load_recent_items_cache svc db now = svc.
Proof. intros H. unfold DeduplicationService.load_recent_items_cache. by rewrite H. Qed.

Lemma load_recent_items_cache_window svc db now :
  _cache_loaded svc = false ->
  _items_cache svc = [] ->
  let svc1 := load_recent_items_cache svc db now in
  _cache_loaded svc1 = true /\
  similarity_threshold svc1 = similarity_threshold svc /\
  lookback_days svc1 = lookback_days svc /\
  _items_cache svc1 =
    map (fun row => (row, embedding_of (embedding_service svc) (combined_text_of_row row)))
        (get_recent db now (lookback_days svc) (Some 1000%Z)).
Proof.
  intros Hl Hc. unfold DeduplicationService.load_recent_items_cache. rewrite Hl.
  destruct (get_recent db now (lookback_days svc) (Some 1000%Z)) as [|r recent] eqn:Hrec.
  - simpl. by rewrite Hc.
  - pose proof (encode_batch_embeddings sha256_hexdigest sentence_transformer
                  (embedding_service svc) (map combined_text_of_row (r :: recent)))
      as Hembs.
    destruct (encode_batch _ _ true) as [embeddings es]. simpl in Hembs. subst embeddings.
    cbn [_cache_loaded similarity_threshold lookback_days _items_cache].
    repeat split; try reflexivity.
    rewrite map_map.
    exact (zip_map_self (fun row => embedding_of (embedding_service svc)
                                     (combined_text_of_row row)) (r :: recent)).
Qed.

(** X20. The recency window is loaded once: after [clear_memory_cache] (as
    on a new service) the first load marks the cache as loaded, every later
    load changes nothing, whatever the database then holds, and the window
    is made of the rows of [get_recent] with the embedding the service has
    for each: at most 1000 rows of the database, newest first, none marked
    as duplicate and none published before the look-back cut-off. *)
Theorem recency_window_is_loaded_once svc db now :
  let svc0 := clear_memory_cache svc in
  let svc1 := load_recent_items_cache svc0 db now in
  _cache_loaded svc0 = false /\
  _items_cache svc0 = [] /\
  _cache_loaded svc1 = true /\
  (forall db' now', load_recent_items_cache svc1 db' now' = svc1) /\
  _items_cache svc1 =
    map (fun row => (row, embedding_of (embedding_service svc) (combined_text_of_row row)))
        (get_recent db now (lookback_days svc) (Some 1000%Z)) /\
  (length (_items_cache svc1) <= 1000)%nat /\
  StronglySorted newest_first (map fst (_items_cache svc1)) /\
  Forall (fun p => p.1 ∈ news_items db /\
                   db_is_duplicate p.1 = false /\
                   (now - days (lookback_days svc) <= fields (db_published_at p.1))%Z)
         (_items_cache svc1).
Proof.
  intros svc0 svc1.
  destruct (load_recent_items_cache_window svc0 db now eq_refl eq_refl)
    as (Hloaded & _ & _ & Hwin).
  fold svc1 in Hloaded, Hwin. cbn [clear_memory_cache embedding_service lookback_days] in Hwin.
  destruct (get_recent_spec db now (lookback_days svc) (Some 1000%Z))
    as (Hsorted & Hall & Hlen).
  split; [done|]. split; [done|]. split; [exact Hloaded|].
  split; [intros db' now'; by apply load_recent_items_cache_loaded|].
  split; [exact Hwin|]. rewrite Hwin.
  split; [rewrite length_map; apply (Hlen 1000%Z); [done|lia]|].
  split.
  - rewrite map_map. simpl. by rewrite map_id.
  - apply Forall_map. simpl. exact Hall.
Qed.

(** *** The two checks *)

Lemma check_batch_lookup svc db now items vs svc' :
  check_batch svc db now items = Ok (vs, svc') ->
  let svc1 := load_recent_items_cache svc db now in
  length vs = length items /\
  forall i item, items !! i = Some item ->
    exists v, vs !! i = Some v /\
      check_batch_item svc1 db
        (item, embedding_of (embedding_service svc1) (combined_text_of_item item))
      = Ok v.
Proof.
  unfold DeduplicationService.check_batch. intros Hrun.
  set (svc1 := load_recent_items_cache svc db now) in *.
  pose proof (encode_batch_embeddings sha256_hexdigest sentence_transformer
                (embedding_service svc1) (map combined_text_of_item items)) as Hembs.
  destruct (encode_batch _ _ true) as [new_embeddings es]. simpl in Hembs.
  subst new_embeddings.
  apply bind_ok in Hrun as (results & Hresults & Heq). injection Heq as <- _.
  apply mapM_Forall2 in Hresults.
  rewrite map_map, zip_map_self in Hresults.
  apply Forall2_fmap_l in Hresults.
  split; [symmetry; by eapply Forall2_length|].
  intros i item Hi.
  destruct (Forall2_lookup_l _ _ _ _ _ Hresults Hi) as (v & Hv & Hitem).
  exists v. split; [exact Hv|exact Hitem].
Qed.

(** X21. A stored URL decides: when exactly one stored item has the URL of
    the candidate, [check_duplicate] reports it as an "exact_url" duplicate
    of that item with score 1, whatever the titles, the contents and the
    recency window are, and [check_batch], when it returns, reports the same
    verdict at the position of the candidate. *)
Theorem exact_url_match_decides svc db now news_item row :
  get_by_url db (url news_item) = Ok (Some row) ->
  let verdict := {| is_duplicate := true; original_id := Some (db_id row);
                    similarity_score := 1%R; match_type := "exact_url" |} in
  check_duplicate svc db now news_item =
    Ok (verdict, load_recent_items_cache svc db now) /\
  (forall items vs svc' i,
     check_batch svc db now items = Ok (vs, svc') ->
     items !! i = Some news_item ->
     vs !! i = Some verdict).
Proof.
  intros Hurl verdict. split.
  - unfold DeduplicationService.check_duplicate. rewrite Hurl. reflexivity.
  - intros items vs svc' i Hrun Hi.
    destruct (check_batch_lookup _ _ _ _ _ _ Hrun) as [_ Hlook].
    destruct (Hlook i news_item Hi) as (v & Hv & Hitem).
    unfold check_batch_item, _check_exact_matches in Hitem.
    rewrite Hurl in Hitem. simpl in Hitem. by injection Hitem as <-.
Qed.




(** X24. [check_batch] judges each item alone: it returns one verdict per
    item, in order, and the verdict at a position is the verdict that
    [check_batch] gives for the batch made of that item only; the items of
    one batch are never compared with each other. *)
Theorem check_batch_judges_each_item_alone svc db now items vs svc' :
  check_batch svc db now items = Ok (vs, svc') ->
  length vs = length items /\
  (forall i item v,
     items !! i = Some item -> vs !! i = Some v ->
     exists svc'', check_batch svc db now [item] = Ok ([v], svc'')).
Proof.
  intros Hrun.
  destruct (check_batch_lookup _ _ _ _ _ _ Hrun) as [Hlen Hlook].
  split; [exact Hlen|].
  intros i item v Hi Hv.
  destruct (Hlook i item Hi) as (v' & Hv' & Hitem).
  assert (v' = v) as -> by congruence.
  unfold DeduplicationService.check_batch.
  set (svc1 := load_recent_items_cache svc db now) in *.
  pose proof (encode_batch_embeddings sha256_hexdigest sentence_transformer
                (embedding_service svc1) (map combined_text_of_item [item])) as Hembs.
  destruct (encode_batch _ _ true) as [new_embeddings es]. simpl in Hembs.
  subst new_embeddings.
  cbn [zip zip_with mapM].
  change (check_batch_item (set_embedding_service svc1 es) db
            (item, embedding_of (embedding_service svc1) (combined_text_of_item item)))
    with (check_batch_item svc1 db
            (item, embedding_of (embedding_service svc1) (combined_text_of_item item))).
  rewrite Hitem. simpl. by eexists.
Qed.

(** X25. Apart from the hash look-up, the two checks agree: when
    [find_similar] finds nothing for any item of a batch and [check_batch]
    returns, each of its verdicts is the verdict that [check_duplicate]
    returns for that item from the same state. *)
Theorem check_batch_agrees_with_check_duplicate svc db now items vs svc' :
  Forall (fun item => find_similar db (url item) (title item) (content item)
                      = Ok None) items ->
  check_batch svc db now items = Ok (vs, svc') ->
  Forall2 (fun item v =>
             exists svc'', check_duplicate svc db now item = Ok (v, svc''))
          items vs.
Proof.
  intros Htitle Hrun.
  exact (check_batch_agrees_without_exact_title sha256_hexdigest
           sentence_transformer urlparse_netloc str_lower
           svc db now items vs svc' Htitle Hrun).
Qed.

Lemma add_to_cache_window svc item :
  _items_cache (add_to_cache svc item) = _items_cache svc /\
  _cache_loaded (add_to_cache svc item) = _cache_loaded svc /\
  similarity_threshold (add_to_cache svc item) = similarity_threshold svc /\
  lookback_days (add_to_cache svc item) = lookback_days svc.
Proof.
  unfold DeduplicationService.add_to_cache. by destruct (encode _ _ true).
Qed.

Lemma add_all_to_cache_window added : forall svc,
  _items_cache (fold_left add_to_cache added svc) = _items_cache svc /\
  _cache_loaded (fold_left add_to_cache added svc) = _cache_loaded svc.
Proof.
  induction added as [|item added IH]; intros svc; [done|].
  simpl. destruct (IH (add_to_cache svc item)) as [-> ->].
  destruct (add_to_cache_window svc item) as (-> & -> & _). done.
Qed.

Lemma check_duplicate_semantic_original svc db now news_item v svc' :
  check_duplicate svc db now news_item = Ok (v, svc') ->
  let svc1 := load_recent_items_cache svc db now in
  _items_cache svc' = _items_cache svc1 /\
  (match_type v = "similar_content"%string ->
   exists row e, (row, e) ∈ _items_cache svc1 /\ original_id v = Some (db_id row)).
Proof.
  unfold DeduplicationService.check_duplicate.
  set (svc1 := load_recent_items_cache svc db now).
  intros Hrun. cbv zeta.
  apply bind_ok in Hrun as (existing & _ & Hrun).
  destruct existing as [row|]; [by injection Hrun as <- <-|].
  apply bind_ok in Hrun as (cached & _ & Hrun).
  destruct cached as [entry|]; [by injection Hrun as <- <-|].
  destruct (_items_cache svc1) as [|p cache] eqn:Hcache;
    [injection Hrun as <- <-; by rewrite Hcache|].
  destruct (encode _ _ true) as [emb es].
  cbn [_items_cache set_embedding_service similarity_threshold] in Hrun.
  rewrite Hcache in Hrun.
  apply bind_ok in Hrun as (cands & _ & Hrun).
  apply bind_ok in Hrun as (sims & _ & Hrun).
  destruct sims as [|[best_idx best_score] rest];
    [injection Hrun as <- <-; by rewrite <- Hcache|].
  destruct ((p :: cache) !! best_idx) as [[best_item e]|] eqn:Hbest; [|done].
  apply bind_ok in Hrun as (d & _ & Hrun).
  destruct (Qlt_le_dec _ _); injection Hrun as <- <-;
    (split; [by rewrite <- Hcache|]); [done|].
  intros _. exists best_item, e. split; [|done].
  by eapply list_elem_of_lookup_2.
Qed.

(** X26. [add_to_cache] never extends the recency window: whatever items
    are added to a service whose window is loaded, the window a later
    [check_duplicate] compares with is the one that was loaded, and the
    original of a "similar_content" verdict is an item of that window, never
    an item added since. *)
Theorem add_to_cache_leaves_the_window svc (added : list NewsItem) db now
    news_item v svc' :
  let svc_n := fold_left add_to_cache added svc in
  _cache_loaded svc = true ->
  check_duplicate svc_n db now news_item = Ok (v, svc') ->
  _items_cache svc_n = _items_cache svc /\
  _items_cache svc' = _items_cache svc /\
  (match_type v = "similar_content"%string ->
   exists row e, (row, e) ∈ _items_cache svc /\ original_id v = Some (db_id row)).
Proof.
  intros svc_n Hloaded Hrun.
  destruct (add_all_to_cache_window added svc) as [Hwin Hl].
  fold svc_n in Hwin, Hl.
  destruct (check_duplicate_semantic_original _ _ _ _ _ _ Hrun) as [Hwin' Horig].
  rewrite load_recent_items_cache_loaded in Hwin', Horig by congruence.
  rewrite Hwin in Hwin', Horig. done.
Qed.

End Session.

Lemma exact_url_match_decides_witness :
  let es := mk_EmbeddingService "all-MiniLM-L6-v2" ".embeddings_cache" ∅
              (fun _ => true) 0 in
  let stored := mk_NewsItemDB "stored-1" "https://example.com/article1"
                  "Breaking: Major Tech Announcement" "A major company"
                  (mk_datetime 0 (Some UTC)) false in
  let svc := mk_DeduplicationService es (85 / 100)%R 30 ∅ [] true in
  let db := mk_Database [stored] [] in
  let item := mk_NewsItem "id-2" "https://example.com/article1"
                "Another title" "Other words" "TechNews"
                (mk_datetime (days 10) (Some UTC)) in
  check_duplicate (fun x => x) (fun _ _ => [1; 0]%R)
    (fun _ => Ok "example.com"%string) (fun x => x) svc db 0%Z item =
  Ok ({| is_duplicate := true; original_id := Some "stored-1"%string;
         similarity_score := 1%R; match_type := "exact_url" |},
      load_recent_items_cache (fun x => x) (fun _ _ => [1; 0]%R)
        (fun _ => Ok "example.com"%string) svc db 0%Z).
Proof.
  intros es stored svc db item.
  refine (proj1 (exact_url_match_decides (fun x => x) (fun _ _ => [1; 0]%R)
                   (fun _ => Ok "example.com"%string) (fun x => x)
                   svc db 0%Z item stored _)).
  reflexivity.
Defined.



Lemma check_batch_judges_each_item_alone_witness :
  let es := mk_EmbeddingService "all-MiniLM-L6-v2" ".embeddings_cache" ∅
              (fun _ => true) 0 in
  let svc := mk_DeduplicationService es (85 / 100)%R 30 ∅ [] true in
  let db := mk_Database [] [] in
  let a := mk_NewsItem "id-1" "https://example.com/article1"
             "Breaking: Major Tech Announcement" "A major company"
             "TechNews" (mk_datetime 0 (Some UTC)) in
  let b := mk_NewsItem "id-2" "https://mirror.example/article1"
             "Breaking: Major Tech Announcement" "A major company"
             "Mirror" (mk_datetime 0 (Some UTC)) in
  exists vs svc',
    check_batch (fun x => x) (fun _ _ => [1; 0]%R)
      (fun _ => Ok "example.com"%string) svc db 0%Z [a; b] = Ok (vs, svc') /\
    length vs = 2%nat /\
    forall i item v, [a; b] !! i = Some item -> vs !! i = Some v ->
      exists svc'',
        check_batch (fun x => x) (fun _ _ => [1; 0]%R)
          (fun _ => Ok "example.com"%string) svc db 0%Z [item] = Ok ([v], svc'').
Proof.
  intros es svc db a b.
  assert (Hrun : exists vs svc',
    check_batch (fun x => x) (fun _ _ => [1; 0]%R)
      (fun _ => Ok "example.com"%string) svc db 0%Z [a; b] = Ok (vs, svc')).
  { eexists _, _. reflexivity. }
  destruct Hrun as (vs & svc' & Hrun). exists vs, svc'.
  split; [exact Hrun|].
  exact (check_batch_judges_each_item_alone (fun x => x) (fun _ _ => [1; 0]%R)
           (fun _ => Ok "example.com"%string) svc db 0%Z [a; b] vs svc' Hrun).
Defined.

Lemma check_batch_agrees_with_check_duplicate_witness :
  let es := mk_EmbeddingService "all-MiniLM-L6-v2" ".embeddings_cache" ∅
              (fun _ => true) 0 in
  let stored := mk_NewsItemDB "stored-1" "https://example.com/article1"
                  "Breaking: Major Tech Announcement" "A major company"
                  (mk_datetime 0 (Some UTC)) false in
  let svc := mk_DeduplicationService es (85 / 100)%R 30 ∅ [] true in
  let db := mk_Database [stored] [] in
  let a := mk_NewsItem "id-1" "https://example.com/article1"
             "Breaking: Major Tech Announcement" "A major company"
             "TechNews" (mk_datetime 0 (Some UTC)) in
  let b := mk_NewsItem "id-2" "https://example.com/article2"
             "Something else" "Other words" "TechNews"
             (mk_datetime 0 (Some UTC)) in
  exists vs svc',
    check_batch (fun x => x) (fun _ _ => [1; 0]%R)
      (fun _ => Ok "example.com"%string) svc db 0%Z [a; b] = Ok (vs, svc') /\
    Forall2 (fun item v =>
               exists svc'',
                 check_duplicate (fun x => x) (fun _ _ => [1; 0]%R)
                   (fun _ => Ok "example.com"%string) (fun x => x)
                   svc db 0%Z item = Ok (v, svc''))
            [a; b] vs.
Proof.
  intros es stored svc db a b.
  assert (Hrun : exists vs svc',
    check_batch (fun x => x) (fun _ _ => [1; 0]%R)
      (fun _ => Ok "example.com"%string) svc db 0%Z [a; b] = Ok (vs, svc')).
  { eexists _, _. reflexivity. }
  destruct Hrun as (vs & svc' & Hrun). exists vs, svc'.
  split; [exact Hrun|].
  apply (check_batch_agrees_with_check_duplicate (fun x => x) (fun _ _ => [1; 0]%R)
           (fun _ => Ok "example.com"%string) (fun x => x)
           svc db 0%Z [a; b] vs svc'); [|exact Hrun].
  repeat constructor.
Defined.

Lemma add_to_cache_leaves_the_window_witness :
  let es := mk_EmbeddingService "all-MiniLM-L6-v2" ".embeddings_cache" ∅
              (fun _ => true) 0 in
  let svc := mk_DeduplicationService es (85 / 100)%R 30 ∅ [] true in
  let db := mk_Database [] [] in
  let a := mk_NewsItem "id-1" "https://example.com/article1"
             "Breaking: Major Tech Announcement" "A major company"
             "TechNews" (mk_datetime 0 (Some UTC)) in
  let b := mk_NewsItem "id-2" "https://mirror.example/article1"
             "Breaking: Major Tech Announcement" "A major company"
             "Mirror" (mk_datetime 0 (Some UTC)) in
  let svc_n := add_to_cache (fun x => x) (fun _ _ => [1; 0]%R)
                 (fun _ => Ok "example.com"%string) svc a in
  _items_cache svc_n = [] /\
  check_duplicate (fun x => x) (fun _ _ => [1; 0]%R)
    (fun _ => Ok "example.com"%string) (fun x => x) svc_n db 0%Z b =
  Ok ({| is_duplicate := false; original_id := None;
         similarity_score := 0%R; match_type := "none" |}, svc_n).
Proof.
  intros es svc db a b svc_n.
  assert (Hrun :
    check_duplicate (fun x => x) (fun _ _ => [1; 0]%R)
      (fun _ => Ok "example.com"%string) (fun x => x) svc_n db 0%Z b =
    Ok ({| is_duplicate := false; original_id := None;
           similarity_score := 0%R; match_type := "none" |}, svc_n))
    by reflexivity.
  split; [|exact Hrun].
  exact (proj1 (add_to_cache_leaves_the_window (fun x => x) (fun _ _ => [1; 0]%R)
                  (fun _ => Ok "example.com"%string) (fun x => x)
                  svc [a] db 0%Z b _ svc_n eq_refl Hrun)).
Defined.

End DeduplicationServiceFacts.

(** ** Properties of the writes of storage/repositories.py *)

Module NewsItemRepositoryFacts.
Import Datetime Models EmbeddingService DeduplicationService NewsItemRepository.

Lemma filter_nil_not_Exists {A} (P : A -> Prop) `{!forall x, Decision (P x)}
    (l : list A) :
  ~ Exists P l -> filter P l = [].
Proof.
  intros Hno. induction l as [|x l IH]; [done|].
  rewrite filter_cons. destruct (decide (P x)) as [Hx|Hx].
  - exfalso. apply Hno. by left.
  - apply IH. intros Hex. apply Hno. by right.
Qed.

Lemma create_ok db news_item row db' :
  create db news_item = Ok (row, db') ->
  row = {| db_id := id news_item; db_url := url news_item;
           db_title := title news_item; db_content := content news_item;
           db_published_at := published_at news_item;
           db_is_duplicate := false |} /\
  news_items db' = news_items db ++ [row] /\
  deduplication_cache db' = deduplication_cache db /\
  ~ Exists (fun r => db_id r = id news_item \/ db_url r = url news_item)
           (news_items db).
Proof.
  unfold create. destruct (decide (Exists _ _)) as [|Hno]; [done|].
  intros H. injection H as <- <-. done.
Qed.

Section Collaborators.
Variable sha256_hexdigest : string -> string.
Variable sentence_transformer : string -> string -> embedding.
Variable urlparse_netloc : string -> result string.
Variable str_lower : string -> string.

Local Abbreviation check_duplicate :=
  (check_duplicate sha256_hexdigest sentence_transformer urlparse_netloc str_lower).
Local Abbreviation load_recent_items_cache :=
  (load_recent_items_cache sha256_hexdigest sentence_transformer urlparse_netloc).

(** X27. A stored item is recognised by its URL: after [create] has stored
    an item, [get_by_url] and [get_by_id] find its row, [check_duplicate]
    reports every candidate with that URL as an "exact_url" duplicate of the
    stored item with score 1, and a second [create] of the item is refused
    by the table. *)
Theorem stored_item_is_an_exact_url_duplicate db news_item row db' :
  create db news_item = Ok (row, db') ->
  db_id row = id news_item /\
  get_by_url db' (url news_item) = Ok (Some row) /\
  get_by_id db' (id news_item) = Ok (Some row) /\
  (forall svc now candidate,
     url candidate = url news_item ->
     check_duplicate svc db' now candidate =
     Ok ({| is_duplicate := true; original_id := Some (id news_item);
            similarity_score := 1%R; match_type := "exact_url" |},
         load_recent_items_cache svc db' now)) /\
  create db' news_item = Raise (Unexpected "IntegrityError").
Proof.
  intros Hcreate.
  destruct (create_ok _ _ _ _ Hcreate) as (Hrow & Hitems & Hcache & Hno).
  assert (Hid : db_id row = id news_item) by (by rewrite Hrow).
  assert (Hu : db_url row = url news_item) by (by rewrite Hrow).
  assert (Hurl : get_by_url db' (url news_item) = Ok (Some row)).
  { unfold get_by_url. rewrite Hitems, filter_app.
    rewrite (filter_nil_not_Exists (fun r => db_url r = url news_item)).
    - rewrite filter_cons, decide_True by done. reflexivity.
    - intros Hex. apply Hno. eapply Exists_impl; [exact Hex|]. intros r Hr. by right. }
  split; [exact Hid|]. split; [exact Hurl|]. split; [|split].
  - unfold get_by_id. rewrite Hitems, filter_app.
    rewrite (filter_nil_not_Exists (fun r => db_id r = id news_item)).
    + rewrite filter_cons, decide_True by done. reflexivity.
    + intros Hex. apply Hno. eapply Exists_impl; [exact Hex|]. intros r Hr. by left.
  - intros svc now candidate Hcand.
    unfold DeduplicationService.check_duplicate. rewrite Hcand, Hurl. simpl.
    by rewrite Hid.
  - unfold create. rewrite decide_True; [done|].
    rewrite Hitems. apply Exists_app. right. left. by left.
Qed.

End Collaborators.

Lemma stored_item_is_an_exact_url_duplicate_witness :
  let item := mk_NewsItem "id-1" "https://example.com/article1"
                "Breaking: Major Tech Announcement" "A major company"
                "TechNews" (mk_datetime 0 (Some UTC)) in
  let row := mk_NewsItemDB "id-1" "https://example.com/article1"
               "Breaking: Major Tech Announcement" "A major company"
               (mk_datetime 0 (Some UTC)) false in
  let db' := mk_Database [row] [] in
  get_by_url db' "https://example.com/article1" = Ok (Some row) /\
  create db' item = Raise (Unexpected "IntegrityError").
Proof.
  intros item row db'.
  destruct (stored_item_is_an_exact_url_duplicate (fun x => x) (fun _ _ => [1; 0]%R)
              (fun _ => Ok "example.com"%string) (fun x => x)
              (mk_Database [] []) item row db' eq_refl)
    as (_ & Hurl & _ & _ & Hagain).
  split; [exact Hurl|exact Hagain].
Defined.

Lemma map_mark_filter (rows : list NewsItemDB) item_id :
  Forall (fun r => db_id r = item_id -> db_is_duplicate r = true)
         (map (fun r => if decide (db_id r = item_id)
                        then set_is_duplicate r true else r) rows) /\
  Forall (fun r => db_id r <> item_id -> r ∈ rows)
         (map (fun r => if decide (db_id r = item_id)
                        then set_is_duplicate r true else r) rows).
Proof.
  split; apply Forall_map, Forall_forall; intros r Hr; simpl.
  - destruct (decide (db_id r = item_id)); [done|]. intros H. done.
  - destruct (decide (db_id r = item_id)); [by simpl|]. done.
Qed.

(** X28. An item marked as duplicate leaves the recent items: after
    [mark_as_duplicate] has found and marked the row of an id, no row with
    that id is returned by [get_recent], for any time, look-back and limit,
    and the rows that are returned are rows the table already had. *)
Theorem marked_duplicates_leave_the_recent_items db item_id duplicate_of row db' :
  mark_as_duplicate db item_id duplicate_of = Ok (Some row, db') ->
  db_id row = item_id /\
  db_is_duplicate row = true /\
  forall now lookback limit r,
    r ∈ get_recent db' now lookback limit ->
    db_id r <> item_id /\ r ∈ news_items db.
Proof.
  unfold mark_as_duplicate. intros Hrun.
  apply bind_ok in Hrun as (item & Hget & Hrun).
  destruct item as [found|]; [|done]. injection Hrun as <- <-.
  assert (Hfound : db_id found = item_id).
  { unfold get_by_id in Hget.
    destruct (filter (fun r => db_id r = item_id) (news_items db))
      as [|x [|y l]] eqn:Hf; try done.
    simpl in Hget. injection Hget as ->.
    assert (Hin : found ∈ filter (fun r => db_id r = item_id) (news_items db))
      by (rewrite Hf; left).
    by apply list_elem_of_filter in Hin as [H _]. }
  split; [exact Hfound|]. split; [reflexivity|].
  intros now lookback limit r Hr.
  destruct (DeduplicationServiceFacts.get_recent_spec
              {| news_items :=
                   map (fun r => if decide (db_id r = item_id)
                                 then set_is_duplicate r true else r)
                       (news_items db);
                 deduplication_cache := deduplication_cache db |}
              now lookback limit) as (_ & Hall & _).
  rewrite Forall_forall in Hall. destruct (Hall r Hr) as (Hin & Hdup & _).
  cbn [news_items] in Hin.
  destruct (map_mark_filter (news_items db) item_id) as [Hmarked Hkept].
  rewrite Forall_forall in Hmarked, Hkept.
  assert (Hne : db_id r <> item_id).
  { intros Heq. specialize (Hmarked r Hin Heq). congruence. }
  split; [exact Hne|]. by apply Hkept.
Qed.

Lemma marked_duplicates_leave_the_recent_items_witness :
  let a := mk_NewsItemDB "id-1" "https://example.com/article1"
             "Breaking: Major Tech Announcement" "A major company"
             (mk_datetime 0 (Some UTC)) false in
  let b := mk_NewsItemDB "id-2" "https://example.com/article2"
             "Something else" "Other words" (mk_datetime 0 (Some UTC)) false in
  let db := mk_Database [a; b] [] in
  let db' := mk_Database [set_is_duplicate a true; b] [] in
  mark_as_duplicate db "id-1" "id-0" = Ok (Some (set_is_duplicate a true), db') /\
  Forall (fun r => db_id r <> "id-1"%string /\ r ∈ news_items db)
         (get_recent db' 0 7 None).
Proof.
  intros a b db db'.
  assert (Hrun : mark_as_duplicate db "id-1" "id-0"
                 = Ok (Some (set_is_duplicate a true), db')) by reflexivity.
  split; [exact Hrun|].
  apply Forall_forall. intros r Hr.
  exact (proj2 (proj2 (marked_duplicates_leave_the_recent_items
                         db "id-1" "id-0" (set_is_duplicate a true) db' Hrun))
               0%Z 7%Z None r Hr).
Defined.

End NewsItemRepositoryFacts.

Module DeduplicationRepositoryFacts.
Import Datetime Models EmbeddingService DeduplicationService DeduplicationRepository.

Lemma scalar_one_or_none_two {A} (l : list A) (x y : A) :
  scalar_one_or_none (l ++ [x; y]) = Raise MultipleResultsFound.
Proof. destruct l as [|a [|b l]]; reflexivity. Qed.

Lemma scalar_one_or_none_unique {A} (P : A -> Prop) `{!forall x, Decision (P x)}
    (f : A -> string) (l : list A) :
  NoDup (map f l) ->
  (forall x y, P x -> P y -> f x = f y) ->
  exists o, scalar_one_or_none (filter P l) = Ok o.
Proof.
  intros Hnd Hsame.
  destruct (filter P l) as [|x [|y rest]] eqn:Hf; [by eexists..|].
  exfalso.
  assert (Hsub : [x; y] `sublist_of` l).
  { etransitivity; [|apply (sublist_filter P)]. rewrite Hf.
    apply sublist_skip, sublist_skip, sublist_nil_l. }
  assert (Hx : P x).
  { assert (Hin : x ∈ filter P l) by (rewrite Hf; left).
    by apply list_elem_of_filter in Hin as [Hin _]. }
  assert (Hy : P y).
  { assert (Hin : y ∈ filter P l) by (rewrite Hf; right; left).
    by apply list_elem_of_filter in Hin as [Hin _]. }
  assert (Hnd2 : NoDup (map f [x; y])).
  { eapply sublist_NoDup; [exact Hnd|]. by apply fmap_sublist. }
  simpl in Hnd2. apply NoDup_cons in Hnd2 as [Hnin _].
  apply Hnin. rewrite (Hsame x y Hx Hy). left.
Qed.

Lemma filter_ext_Forall {A} (P Q : A -> Prop) `{!forall x, Decision (P x)}
    `{!forall x, Decision (Q x)} (l : list A) :
  Forall (fun x => P x <-> Q x) l -> filter P l = filter Q l.
Proof.
  induction 1 as [|x l Hx _ IH]; [done|].
  rewrite !filter_cons, IH.
  destruct (decide (P x)), (decide (Q x)); tauto.
Qed.

Section Hashing.
Variable sha256_hexdigest : string -> string.
Variable str_lower : string -> string.

Local Abbreviation add_to_cache := (add_to_cache sha256_hexdigest str_lower).
Local Abbreviation find_similar := (find_similar sha256_hexdigest str_lower).
Local Abbreviation _hash_text := (_hash_text sha256_hexdigest).

Lemma add_to_cache_ok db row entry db' :
  add_to_cache db row = Ok (entry, db') ->
  url_hash entry = _hash_text (db_url row) /\
  entry ∈ deduplication_cache db' /\
  news_items db' = news_items db /\
  ((db' = db /\ entry ∈ deduplication_cache db) \/
   (entry = {| url_hash := _hash_text (db_url row);
               title_hash := _hash_text (str_lower (db_title row));
               content_hash :=
                 _hash_text (str_lower (substring 0 500 (db_content row)));
               news_item_id := db_id row |} /\
    deduplication_cache db' = deduplication_cache db ++ [entry] /\
    filter (fun r => url_hash r = _hash_text (db_url row))
           (deduplication_cache db) = [])).
Proof.
  unfold DeduplicationRepository.add_to_cache. intros Hrun.
  apply bind_ok in Hrun as (existing & Hex & Hrun).
  destruct existing as [old|].
  - injection Hrun as <- <-.
    destruct (filter _ (deduplication_cache db)) as [|x [|y l]] eqn:Hf; try done.
    simpl in Hex. injection Hex as ->.
    assert (Hin : old ∈ filter (fun r => url_hash r =
                                DeduplicationService._hash_text sha256_hexdigest (db_url row))
                               (deduplication_cache db))
      by (rewrite Hf; left).
    apply list_elem_of_filter in Hin as [Hh Hin].
    split; [exact Hh|]. split; [exact Hin|]. split; [done|]. left. done.
  - injection Hrun as <- <-. simpl.
    split; [done|]. split; [apply elem_of_app; right; left|]. split; [done|].
    right. split; [done|]. split; [done|].
    by destruct (filter _ (deduplication_cache db)) as [|x [|y l]].
Qed.

(** X29. An item put in the deduplication cache is found again: on a cache
    whose URL hashes are distinct, [add_to_cache] succeeds, keeps the URL
    hashes distinct and leaves the news items alone; afterwards
    [find_similar] on the item's URL, title and content never answers
    [None], and it answers with the item's entry unless an entry of another
    URL has the same title and content hashes. *)
Theorem cached_item_is_found_again db row :
  NoDup (map url_hash (deduplication_cache db)) ->
  exists entry db',
    add_to_cache db row = Ok (entry, db') /\
    NoDup (map url_hash (deduplication_cache db')) /\
    news_items db' = news_items db /\
    entry ∈ deduplication_cache db' /\
    url_hash entry = _hash_text (db_url row) /\
    find_similar db' (db_url row) (db_title row) (db_content row) <> Ok None /\
    (Forall (fun r => title_hash r = _hash_text (str_lower (db_title row)) ->
                      content_hash r =
                        _hash_text (str_lower (substring 0 500 (db_content row))) ->
                      url_hash r = _hash_text (db_url row))
            (deduplication_cache db') ->
     find_similar db' (db_url row) (db_title row) (db_content row)
     = Ok (Some entry)).
Proof.
  intros Hnd.
  destruct (scalar_one_or_none_unique
              (fun r => url_hash r = _hash_text (db_url row)) url_hash
              (deduplication_cache db) Hnd) as [o Ho]; [congruence|].
  assert (Hrun : exists entry db', add_to_cache db row = Ok (entry, db')).
  { unfold DeduplicationRepository.add_to_cache. rewrite Ho. simpl.
    destruct o; by eexists _, _. }
  destruct Hrun as (entry & db' & Hrun). exists entry, db'.
  split; [exact Hrun|].
  destruct (add_to_cache_ok _ _ _ _ Hrun) as (Hh & Hin & Hitems & Hcase).
  assert (Hnd' : NoDup (map url_hash (deduplication_cache db'))).
  { destruct Hcase as [[-> _]|(Hentry & Hcache & Hnone)]; [exact Hnd|].
    rewrite Hcache, map_app. simpl. apply NoDup_app.
    split; [exact Hnd|]. split; [|apply NoDup_singleton].
    intros h Hh1 Hh2. apply list_elem_of_singleton in Hh2. subst h.
    apply list_elem_of_fmap in Hh1 as (r & Hr & Hrin).
    assert (Hrf : r ∈ filter (fun r => url_hash r = _hash_text (db_url row))
                             (deduplication_cache db)).
    { apply list_elem_of_filter. split; [congruence|exact Hrin]. }
    rewrite Hnone in Hrf. by apply elem_of_nil in Hrf. }
  split; [exact Hnd'|]. split; [exact Hitems|]. split; [exact Hin|].
  split; [exact Hh|].
  assert (Hmatch : entry ∈ filter
            (fun r => url_hash r = _hash_text (db_url row) \/
                      (title_hash r = _hash_text (str_lower (db_title row)) /\
                       content_hash r =
                         _hash_text (str_lower (substring 0 500 (db_content row)))))
            (deduplication_cache db')).
  { apply list_elem_of_filter. split; [by left|exact Hin]. }
  split.
  - unfold DeduplicationService.find_similar.
    destruct (filter _ (deduplication_cache db')) as [|x [|y l]]; try done.
    by apply elem_of_nil in Hmatch.
  - intros Honly. unfold DeduplicationService.find_similar.
    assert (Heq : filter
            (fun r => url_hash r = _hash_text (db_url row) \/
                      (title_hash r = _hash_text (str_lower (db_title row)) /\
                       content_hash r =
                         _hash_text (str_lower (substring 0 500 (db_content row)))))
            (deduplication_cache db') =
            filter (fun r => url_hash r = _hash_text (db_url row))
                   (deduplication_cache db')).
    { apply filter_ext_Forall. eapply Forall_impl; [exact Honly|].
      intros r Hr. simpl. split; [|by left]. intros [H|[H1 H2]]; [done|by apply Hr]. }
    fold (_hash_text) in Heq.
    change (DeduplicationService._hash_text sha256_hexdigest) with _hash_text.
    rewrite Heq. rewrite Heq in Hmatch.
    destruct (scalar_one_or_none_unique
                (fun r => url_hash r = _hash_text (db_url row)) url_hash
                (deduplication_cache db') Hnd') as [o' Ho']; [congruence|].
    rewrite Ho'. f_equal.
    destruct (filter _ (deduplication_cache db')) as [|x [|y l]]; try done.
    + by apply elem_of_nil in Hmatch.
    + apply list_elem_of_singleton in Hmatch. subst x. simpl in Ho'. by injection Ho'.
Qed.

End Hashing.

Section Collaborators.
Variable sha256_hexdigest : string -> string.
Variable sentence_transformer : string -> string -> embedding.
Variable urlparse_netloc : string -> result string.
Variable str_lower : string -> string.

Local Abbreviation add_to_cache := (add_to_cache sha256_hexdigest str_lower).
Local Abbreviation find_similar := (find_similar sha256_hexdigest str_lower).
Local Abbreviation _hash_text := (_hash_text sha256_hexdigest).
Local Abbreviation check_duplicate :=
  (check_duplicate sha256_hexdigest sentence_transformer urlparse_netloc str_lower).

(** X30. Two cached copies make the hash look-up fail: once two items with
    different URL hashes and the same title and content hashes have been put
    in the deduplication cache, [find_similar] raises [MultipleResultsFound]
    for every candidate with these title and content hashes, and so does
    [check_duplicate] for every such candidate whose URL is not stored. *)
Theorem find_similar_raises_on_two_cached_copies db (a b : NewsItemDB) :
  let th := _hash_text (str_lower (db_title a)) in
  let ch := _hash_text (str_lower (substring 0 500 (db_content a))) in
  filter (fun r => url_hash r = _hash_text (db_url a)) (deduplication_cache db) = [] ->
  filter (fun r => url_hash r = _hash_text (db_url b)) (deduplication_cache db) = [] ->
  _hash_text (db_url a) <> _hash_text (db_url b) ->
  _hash_text (str_lower (db_title b)) = th ->
  _hash_text (str_lower (substring 0 500 (db_content b))) = ch ->
  exists ea eb db1 db2,
    add_to_cache db a = Ok (ea, db1) /\
    add_to_cache db1 b = Ok (eb, db2) /\
    (forall u t c,
       _hash_text (str_lower t) = th ->
       _hash_text (str_lower (substring 0 500 c)) = ch ->
       find_similar db2 u t c = Raise MultipleResultsFound) /\
    (forall svc now item,
       _hash_text (str_lower (title item)) = th ->
       _hash_text (str_lower (substring 0 500 (content item))) = ch ->
       get_by_url db2 (url item) = Ok None ->
       check_duplicate svc db2 now item = Raise MultipleResultsFound).
Proof.
  intros th ch Ha Hb Hab Ht Hc.
  set (ea := {| url_hash := _hash_text (db_url a); title_hash := th;
                content_hash := ch; news_item_id := db_id a |}).
  set (eb := {| url_hash := _hash_text (db_url b); title_hash := th;
                content_hash := ch; news_item_id := db_id b |}).
  set (db1 := {| news_items := news_items db;
                 deduplication_cache := deduplication_cache db ++ [ea] |}).
  set (db2 := {| news_items := news_items db;
                 deduplication_cache := (deduplication_cache db ++ [ea]) ++ [eb] |}).
  exists ea, eb, db1, db2.
  assert (H1 : add_to_cache db a = Ok (ea, db1)).
  { unfold DeduplicationRepository.add_to_cache.
    change (DeduplicationService._hash_text sha256_hexdigest) with _hash_text.
    rewrite Ha. reflexivity. }
  assert (H2 : add_to_cache db1 b = Ok (eb, db2)).
  { unfold DeduplicationRepository.add_to_cache.
    change (DeduplicationService._hash_text sha256_hexdigest) with _hash_text.
    cbn [deduplication_cache db1]. rewrite filter_app, Hb.
    rewrite filter_cons, decide_False by (simpl; congruence).
    rewrite Ht, Hc. reflexivity. }
  assert (H3 : forall u t c,
       _hash_text (str_lower t) = th ->
       _hash_text (str_lower (substring 0 500 c)) = ch ->
       find_similar db2 u t c = Raise MultipleResultsFound).
  { intros u t c Htt Hcc. unfold DeduplicationService.find_similar.
    change (DeduplicationService._hash_text sha256_hexdigest) with _hash_text.
    rewrite Htt, Hcc. cbn [deduplication_cache db2].
    rewrite <- app_assoc, filter_app. cbn [app].
    rewrite filter_cons, decide_True by (right; done).
    rewrite filter_cons, decide_True by (right; done).
    rewrite filter_nil. apply scalar_one_or_none_two. }
  split; [exact H1|]. split; [exact H2|]. split; [exact H3|].
  intros svc now item Htt Hcc Hurl.
  unfold DeduplicationService.check_duplicate. rewrite Hurl. cbn [bind].
  change (DeduplicationService.find_similar sha256_hexdigest str_lower)
    with find_similar.
  by rewrite (H3 _ _ _ Htt Hcc).
Qed.

End Collaborators.

Lemma cached_item_is_found_again_witness :
  let row := mk_NewsItemDB "id-1" "https://example.com/article1"
               "Breaking: Major Tech Announcement" "A major company"
               (mk_datetime 0 (Some UTC)) false in
  exists entry db',
    add_to_cache (fun x => x) (fun x => x) (mk_Database [row] []) row
      = Ok (entry, db') /\
    find_similar (fun x => x) (fun x => x) db'
      "https://example.com/article1" "Breaking: Major Tech Announcement"
      "A major company" = Ok (Some entry).
Proof.
  intros row.
  destruct (cached_item_is_found_again (fun x => x) (fun x => x)
              (mk_Database [row] []) row) as
    (entry & db' & Hrun & _ & _ & _ & _ & _ & Hfound); [constructor|].
  exists entry, db'. split; [exact Hrun|]. apply Hfound.
  cbv in Hrun. injection Hrun as <- <-. repeat constructor.
Defined.

Lemma find_similar_raises_on_two_cached_copies_witness :
  let a := mk_NewsItemDB "id-1" "https://example.com/article1"
             "Breaking: Major Tech Announcement" "A major company"
             (mk_datetime 0 (Some UTC)) false in
  let b := mk_NewsItemDB "id-2" "https://mirror.example/article1"
             "Breaking: Major Tech Announcement" "A major company"
             (mk_datetime 0 (Some UTC)) false in
  exists ea eb db1 db2,
    add_to_cache (fun x => x) (fun x => x) (mk_Database [a; b] []) a
      = Ok (ea, db1) /\
    add_to_cache (fun x => x) (fun x => x) db1 b = Ok (eb, db2) /\
    find_similar (fun x => x) (fun x => x) db2
      "https://third.example/article1" "Breaking: Major Tech Announcement"
      "A major company" = Raise MultipleResultsFound.
Proof.
  intros a b.
  destruct (find_similar_raises_on_two_cached_copies (fun x => x)
              (fun _ _ => [1; 0]%R) (fun _ => Ok "example.com"%string) (fun x => x)
              (mk_Database [a; b] []) a b)
    as (ea & eb & db1 & db2 & H1 & H2 & H3 & _); try reflexivity.
  - discriminate.
  - exists ea, eb, db1, db2. split; [exact H1|]. split; [exact H2|].
    apply H3; reflexivity.
Defined.

End DeduplicationRepositoryFacts.
